(** * MediLink symptom checker: red-flag evaluator and condition scorer

    A shallow embedding of the rule-based triage core of [medilink.py]
    (the tables [SYMPTOMS], [RED_FLAGS], [CONDITIONS] and the functions
    [score_conditions] and [red_flag_messages]), followed by the
    properties its specification states about it.

    Modelling conventions.
    - A Python [dict] literal is iterated in insertion order and the tables
      have no repeated key, so a table is an association list in the order
      it is written.
    - [set(selected)] is a [gset string]; [x in sel] is [bool_decide (x ∈ sel)].
    - Python [int] is [Z].  The weights of the table are small, so the float
      division of [int(w/2)] is exact and the truncation is [Z.quot w 2].
    - [list.sort(key=..., reverse=True)] is Python's stable sort: elements
      with equal keys keep their relative order, also under [reverse=True].
      It is modelled by a stable insertion sort on the key.
    - [dict.fromkeys(msgs)] builds an insertion-ordered dict: a key that is
      already there keeps its position, a new key goes to the end. *)

From stdpp Require Import base numbers list strings gmap sorting.

Local Open Scope string_scope.
Local Open Scope Z_scope.
Local Open Scope list_scope.

(** ** Knowledge tables *)

Definition SYMPTOMS : list string :=
  [ "fever"; "headache"; "chills"; "vomiting"; "diarrhea"; "abdominal pain";
    "cough"; "sore throat"; "runny nose"; "difficulty breathing";
    "chest pain"; "fatigue"; "loss of appetite"; "joint pain";
    "rash"; "dizziness"; "high temperature (≥38°C)"; "bloody stool";
    "shortness of breath"; "sweating"; "nausea"; "weight loss"; "night sweats";
    "persistent cough"; "frequent urination"; "excessive thirst"; "stiffness"; "swelling" ].

Definition RED_FLAGS : list (string * string) :=
  [ ("chest pain", "Chest pain can indicate a heart or lung emergency.");
    ("difficulty breathing", "Breathing difficulty is an emergency sign.");
    ("shortness of breath", "Shortness of breath may require urgent care.");
    ("bloody stool", "Blood in stool can be serious; seek urgent care.");
    ("high temperature (≥38°C)", "High fever with other symptoms may need urgent care.");
    ("persistent vomiting", "Risk of dehydration; seek care if severe.");
    ("severe abdominal pain", "Could indicate appendicitis or another emergency.");
    ("sudden weakness or slurred speech", "Possible stroke — seek emergency care immediately.") ].

(** The value of one entry of [CONDITIONS]. *)
Record profile : Type := Profile {
  weights : list (string * Z);
  advice : string;
  threshold : Z
}.

#[global] Instance profile_eq_dec : EqDecision profile.
Proof. solve_decision. Defined.

Definition CONDITIONS : list (string * profile) :=
  [ ("Malaria",
     Profile [("fever", 3); ("chills", 2); ("headache", 2); ("fatigue", 1);
              ("high temperature (≥38°C)", 2); ("vomiting", 1)]
       "Possible malaria. Rest, hydrate, and seek testing/treatment at a clinic."
       4);
    ("Typhoid",
     Profile [("fever", 2); ("abdominal pain", 2); ("headache", 1); ("diarrhea", 2);
              ("loss of appetite", 1); ("vomiting", 1)]
       "Possible typhoid. Drink clean water and see a doctor for testing."
       4);
    ("Common Cold / Flu",
     Profile [("cough", 1); ("sore throat", 2); ("runny nose", 2); ("fatigue", 1);
              ("headache", 1); ("fever", 1)]
       "Likely a cold or flu. Rest, fluids, and over-the-counter symptomatic care."
       3);
    ("COVID-19 (possible)",
     Profile [("fever", 2); ("cough", 2); ("sore throat", 1); ("loss of appetite", 1);
              ("fatigue", 2); ("difficulty breathing", 3)]
       "Symptoms may match a respiratory infection such as COVID-19. Isolate and seek testing if available."
       4);
    ("Lower Respiratory Infection / Asthma",
     Profile [("cough", 2); ("difficulty breathing", 3); ("chest pain", 2);
              ("shortness of breath", 3); ("fatigue", 1)]
       "Possible chest infection or asthma exacerbation. Seek medical help if breathing is hard."
       4);
    ("Gastroenteritis / Food Poisoning",
     Profile [("vomiting", 2); ("diarrhea", 2); ("abdominal pain", 1); ("nausea", 1);
              ("high temperature (≥38°C)", 1)]
       "Possible stomach infection or food poisoning. Hydrate with ORS; seek care if persistent."
       3);
    ("Dengue (consider regionally)",
     Profile [("fever", 2); ("headache", 1); ("joint pain", 2); ("rash", 1);
              ("high temperature (≥38°C)", 2)]
       "Dengue possible—avoid NSAIDs, hydrate, and seek evaluation."
       4);
    ("Diabetes (possible indicators)",
     Profile [("frequent urination", 3); ("excessive thirst", 3); ("fatigue", 1);
              ("weight loss", 2)]
       "Symptoms suggesting diabetes. See a clinic for blood sugar testing."
       4);
    ("Tuberculosis (possible)",
     Profile [("persistent cough", 3); ("weight loss", 2); ("night sweats", 2); ("fever", 1)]
       "Persistent cough with weight loss/night sweats may suggest TB. Seek testing at a clinic."
       4);
    ("Arthritis (possible)",
     Profile [("joint pain", 2); ("stiffness", 2); ("swelling", 2)]
       "Joint pain and stiffness may indicate arthritis or inflammatory condition. See a clinician for evaluation."
       3);
    ("Heart Attack (🚨 EMERGENCY)",
     Profile [("chest pain", 4); ("shortness of breath", 4); ("sweating", 2)]
       "Severe chest pain with breathlessness and sweating could indicate a heart attack. Call emergency services immediately."
       6);
    ("Stroke (🚨 EMERGENCY suggestion)",
     Profile [("sudden weakness or slurred speech", 5); ("dizziness", 2);
              ("sudden severe headache", 3)]
       "Sudden weakness or slurred speech may indicate stroke. Seek emergency care immediately."
       5) ].

(** ** Condition scorer *)

(** [x in sel] *)
Definition mem (x : string) (sel : gset string) : bool := bool_decide (x ∈ sel).

(** [int(w/2)] *)
Definition int_half (w : Z) : Z := Z.quot w 2.

(** The body of the inner loop [for s,w in spec["weights"].items()]:
    the score after the entry [(s, w)], from the score before it. *)
Definition score_entry (sel : gset string) (score : Z) (e : string * Z) : Z :=
  let '(s, w) := e in
  if mem s sel then score + w
  else
    let score :=
      if bool_decide (s = "shortness of breath") && mem "difficulty breathing" sel
      then score + w else score in
    let score :=
      if bool_decide (s = "difficulty breathing") && mem "shortness of breath" sel
      then score + w else score in
    let score :=
      if bool_decide (s = "persistent cough") && mem "cough" sel
         && negb (mem "persistent cough" sel)
      then score + int_half w else score in
    score.

(** The inner loop, from [score = 0]. *)
Definition profile_score (sel : gset string) (spec : profile) : Z :=
  fold_left (score_entry sel) (weights spec) 0.

(** One element of the list [score_conditions] returns:
    [(cond, score, advice, threshold)]. *)
Definition result : Type := string * Z * string * Z.

Definition res_name (r : result) : string := r.1.1.1.
Definition res_score (r : result) : Z := r.1.1.2.
Definition res_advice (r : result) : string := r.1.2.
Definition res_threshold (r : result) : Z := r.2.

(** The tuple appended for one profile. *)
Definition scored (sel : gset string) (c : string * profile) : result :=
  (c.1, profile_score sel c.2, advice c.2, threshold c.2).

(** [results.sort(key=lambda x: x[1], reverse=True)]: descending by score,
    equal scores in their original order. *)
Fixpoint insert_desc (x : result) (l : list result) : list result :=
  match l with
  | [] => [x]
  | y :: l' =>
      if bool_decide (res_score y ≤ res_score x) then x :: y :: l'
      else y :: insert_desc x l'
  end.

Definition sort_desc (l : list result) : list result := foldr insert_desc [] l.

Definition score_conditions (selected : list string) : list result :=
  let sel : gset string := list_to_set selected in
  let results :=
    fold_left (fun results c => results ++ [scored sel c]) CONDITIONS [] in
  sort_desc results.

(** ** Red-flag evaluator *)

(** The body of the loop [for key, msg in RED_FLAGS.items()]. *)
Definition flag_entry (sel : gset string) (msgs : list string) (e : string * string)
  : list string :=
  let '(key, msg) := e in
  let msgs := if mem key sel then msgs ++ [msg] else msgs in
  let msgs :=
    if bool_decide (key = "persistent vomiting") && mem "vomiting" sel
    then msgs ++ [msg] else msgs in
  let msgs :=
    if bool_decide (key = "severe abdominal pain") && mem "abdominal pain" sel
    then msgs ++ [msg] else msgs in
  let msgs :=
    if bool_decide (key = "sudden weakness or slurred speech")
    then
      if mem "dizziness" sel || mem "slurred speech" sel || mem "sudden weakness" sel
      then msgs ++ [msg] else msgs
    else msgs in
  msgs.

Definition COMBINATION_MSG : string :=
  "Combination of chest pain and breathing difficulty — this may be life-threatening.".

(** The messages appended, before the final [dict.fromkeys]. *)
Definition fired (sel : gset string) : list string :=
  let msgs := fold_left (flag_entry sel) RED_FLAGS [] in
  if mem "chest pain" sel && (mem "difficulty breathing" sel || mem "shortness of breath" sel)
  then msgs ++ [COMBINATION_MSG] else msgs.

(** Setting the key [k] in the insertion-ordered dict whose keys are [d]:
    a key that is already present keeps its place, a new one goes last. *)
Definition fromkeys_step (d : list string) (k : string) : list string :=
  if bool_decide (k ∈ d) then d else d ++ [k].

(** [list(dict.fromkeys(msgs))]: the keys in insertion order. *)
Definition fromkeys (msgs : list string) : list string :=
  fold_left fromkeys_step msgs [].

Definition red_flag_messages (selected : list string) : list string :=
  let sel : gset string := list_to_set selected in
  fromkeys (fired sel).

(** ** Observations on the outputs *)

(** The score the result list gives to the condition named [cond]. *)
Fixpoint score_for (cond : string) (rs : list result) : option Z :=
  match rs with
  | [] => None
  | r :: rs' => if bool_decide (res_name r = cond) then Some (res_score r)
                else score_for cond rs'
  end.

(** The labels the scorer compares with beyond the keys of the weight tables. *)
Definition BRIDGE_LABELS : list string :=
  [ "difficulty breathing"; "shortness of breath"; "cough"; "persistent cough" ].

(** The labels the red-flag loop compares with beyond the keys of [RED_FLAGS]. *)
Definition MAPPED_LABELS : list string :=
  [ "vomiting"; "abdominal pain"; "dizziness"; "slurred speech"; "sudden weakness" ].

Definition COMBINATION_LABELS : list string :=
  [ "chest pain"; "difficulty breathing"; "shortness of breath" ].

(** Every label either function ever tests for membership in [sel]. *)
Definition REFERENCED : list string :=
  concat (map (λ c : string * profile, (weights c.2).*1) CONDITIONS) ++ BRIDGE_LABELS
  ++ RED_FLAGS.*1 ++ MAPPED_LABELS ++ COMBINATION_LABELS.

(** The referenced labels that are not in the vocabulary. *)
Definition OUT_OF_VOCABULARY : list string :=
  [ "persistent vomiting"; "severe abdominal pain"; "sudden weakness or slurred speech";
    "slurred speech"; "sudden weakness"; "sudden severe headache" ].

(** Descending order of the scores. *)
Definition score_ge (a b : result) : Prop := res_score b ≤ res_score a.

(** The first occurrences of a list, in order: an element is kept when it
    has not been seen before. *)
Fixpoint first_occurrences (seen l : list string) : list string :=
  match l with
  | [] => []
  | x :: l' => if bool_decide (x ∈ seen) then first_occurrences seen l'
               else x :: first_occurrences (x :: seen) l'
  end.

(** Two selections that agree on the labels of [L]. *)
Definition agree (L : list string) (sel sel' : gset string) : Prop :=
  ∀ s, s ∈ L → mem s sel = mem s sel'.

(** When the loop body appends the message of the rule [key]. *)
Definition trigger (sel : gset string) (key : string) : Prop :=
  key ∈ sel
  ∨ (key = "persistent vomiting" ∧ "vomiting" ∈ sel)
  ∨ (key = "severe abdominal pain" ∧ "abdominal pain" ∈ sel)
  ∨ (key = "sudden weakness or slurred speech"
     ∧ ("dizziness" ∈ sel ∨ "slurred speech" ∈ sel ∨ "sudden weakness" ∈ sel)).

(** When the combination message is appended. *)
Definition combination (sel : gset string) : Prop :=
  "chest pain" ∈ sel ∧ ("difficulty breathing" ∈ sel ∨ "shortness of breath" ∈ sel).

(** ** The Symptom Checker page *)

(** The loop over the results of the "Possible Matches" part of the page:
    an expander is shown for each result with [score >= threshold], in the
    order of the result list. *)
Definition possible_matches (selected : list string) : list result :=
  filter (λ r, res_threshold r ≤ res_score r) (score_conditions selected).

(** The flag [found_any] after that loop; when it is false the page shows
    "No strong match". *)
Definition found_any (selected : list string) : bool :=
  fold_left (λ found r, if bool_decide (res_threshold r ≤ res_score r) then true else found)
    (score_conditions selected) false.

(** The sum of the weights of a profile. *)
Definition total_weight (spec : profile) : Z :=
  foldr (λ e acc, e.2 + acc) 0 (weights spec).

(** ** Python strings

    The helpers below work on [str] values character by character, so a
    [str] is modelled as the list of its Unicode code points, and a value
    that may be [None] as an [option].  What Python looks up in the Unicode
    database is a parameter of the functions that use it: [isspace]
    ([str.isspace], the characters [str.strip] removes), [isdigit]
    ([str.isdigit]) and [decimal] (the value of a decimal digit, defined on
    the characters [\d] matches and [int] accepts). *)

Abbreviation pychar := N (only parsing).
Abbreviation pystr := (list N) (only parsing).

(** A literal made of ASCII characters. *)
Definition lit (s : string) : pystr :=
  Ascii.N_of_ascii <$> String.list_ascii_of_string s.

(** [s or ""] *)
Definition or_empty (s : option pystr) : pystr := default [] s.

Fixpoint lstrip (isspace : pychar → bool) (s : pystr) : pystr :=
  match s with
  | [] => []
  | c :: s' => if isspace c then lstrip isspace s' else s
  end.

Definition rstrip (isspace : pychar → bool) (s : pystr) : pystr :=
  reverse (lstrip isspace (reverse s)).

(** [s.strip()] *)
Definition strip (isspace : pychar → bool) (s : pystr) : pystr :=
  rstrip isspace (lstrip isspace s).

(** [x or y] on strings *)
Definition str_or (x y : pystr) : pystr := if bool_decide (x = []) then y else x.

(** ** Phone and message helpers *)

Definition ALLOWED : pystr := lit "+0123456789".

Definition normalize_phone_for_tel (isspace : pychar → bool) (num : option pystr) : pystr :=
  let num := strip isspace (or_empty num) in
  let cleaned := filter (λ ch, ch ∈ ALLOWED) num in
  str_or cleaned num.

Definition normalize_phone_for_whatsapp (isdigit : pychar → bool) (num : option pystr)
  : pystr :=
  filter (λ ch, isdigit ch = true) (or_empty num).

(** [str.encode("utf-8", "strict")] on one character; [None] where Python
    raises [UnicodeEncodeError] (a surrogate).  A [str] has no code point
    above U+10FFFF. *)
Definition utf8_char (c : pychar) : option (list N) :=
  (if bool_decide (c < 128) then Some [c]
   else if bool_decide (c < 2048) then Some [192 + c `div` 64; 128 + c `mod` 64]
   else if bool_decide (c < 65536) then
     if bool_decide (55296 ≤ c ∧ c ≤ 57343) then None
     else Some [224 + c `div` 4096; 128 + (c `div` 64) `mod` 64; 128 + c `mod` 64]
   else if bool_decide (c < 1114112) then
     Some [240 + c `div` 262144; 128 + (c `div` 4096) `mod` 64;
           128 + (c `div` 64) `mod` 64; 128 + c `mod` 64]
   else None)%N.

Fixpoint utf8 (s : pystr) : option (list N) :=
  match s with
  | [] => Some []
  | c :: s' => b ← utf8_char c; bs ← utf8 s'; Some (b ++ bs)
  end.

(** The characters [urllib.parse.quote] never escapes. *)
Definition ALWAYS_SAFE : pystr :=
  lit "ABCDEFGHIJKLMNOPQRSTUVWXYZabcdefghijklmnopqrstuvwxyz0123456789_.-~".

Definition hex_digit (d : N) : pychar := (if bool_decide (d < 10) then 48 + d else 55 + d)%N.

(** One byte of [quote_from_bytes] with the default [safe="/"]: the byte
    itself when it is safe, else ["%{:02X}"]. *)
Definition quote_byte (b : N) : pystr :=
  if bool_decide (b ∈ ALWAYS_SAFE ∨ b = 47%N) then [b]
  else [37%N; hex_digit (b `div` 16); hex_digit (b `mod` 16)].

(** [urllib.parse.quote(s)]; [None] when the encoding raises. *)
Definition quote (s : pystr) : option pystr :=
  bs ← utf8 s; Some (concat (map quote_byte bs)).

(** The characters a quoted string is made of. *)
Definition QUOTED : list N := ALWAYS_SAFE ++ lit "/%".

(** A code point that cannot be encoded: a surrogate, or a number that is
    no code point. *)
Definition unencodable (c : N) : Prop := (55296 ≤ c ≤ 57343 ∨ 1114112 ≤ c)%N.

Definition google_maps_link (isspace : pychar → bool) (lat lon : option pystr)
  : option pystr :=
  let lat := strip isspace (or_empty lat) in
  let lon := strip isspace (or_empty lon) in
  if bool_decide (lat = []) || bool_decide (lon = []) then Some []
  else
    qlat ← quote lat; qlon ← quote lon;
    Some (lit "https://maps.google.com/?q=" ++ qlat ++ lit "," ++ qlon).

Definition DEFAULT_MESSAGE : pystr := lit "Emergency! Please help.".

Definition build_message (isspace : pychar → bool) (user_msg lat lon : option pystr)
  : option pystr :=
  let base := str_or (strip isspace (or_empty user_msg)) DEFAULT_MESSAGE in
  maps ← google_maps_link isspace lat lon;
  Some (if bool_decide (maps = []) then base
        else base ++ [10%N] ++ lit "My location: " ++ maps).

Definition whatsapp_link (isdigit : pychar → bool) (phone message : option pystr)
  : option pystr :=
  let num := normalize_phone_for_whatsapp isdigit phone in
  text ← quote (or_empty message);
  Some (if bool_decide (num = []) then []
        else lit "https://wa.me/" ++ num ++ lit "?text=" ++ text).

Definition sms_link (isspace : pychar → bool) (phone message : option pystr)
  : option pystr :=
  let tel := normalize_phone_for_tel isspace phone in
  body ← quote (or_empty message);
  Some (if bool_decide (tel = []) then []
        else lit "sms:" ++ tel ++ lit "?&body=" ++ body).

(** A string of ASCII characters, as Python reads it. *)
Definition ascii_space (c : pychar) : bool :=
  bool_decide (c ∈ [9; 10; 11; 12; 13; 28; 29; 30; 31; 32]%N).

Definition ascii_digit (c : pychar) : bool := bool_decide (48 ≤ c ∧ c ≤ 57)%N.

(** ** Reminder times *)

(** [\d] *)
Definition is_decimal (decimal : pychar → option N) (c : pychar) : bool :=
  bool_decide (is_Some (decimal c)).

(** [$] with no flag: at the end of the string, or just before a newline
    that ends the string. *)
Definition at_dollar (rest : pystr) : bool :=
  match rest with
  | [] => true
  | [c] => bool_decide (c = 10%N)
  | _ => false
  end.

(** [:(\d{2})$] at the position after the hours; the group matched. *)
Definition match_minutes (decimal : pychar → option N) (rest : pystr) : option pystr :=
  match rest with
  | c :: d :: e :: tl =>
      if bool_decide (c = 58%N) && is_decimal decimal d && is_decimal decimal e
         && at_dollar tl
      then Some [d; e] else None
  | _ => None
  end.

(** [re.match(r"^(\d{1,2}):(\d{2})$", t)]: the two groups.  The greedy
    [\d{1,2}] takes two digits first and gives one back when the rest then
    fails. *)
Definition match_time (decimal : pychar → option N) (t : pystr) : option (pystr * pystr) :=
  match t with
  | a :: rest =>
      if is_decimal decimal a then
        let two :=
          match rest with
          | b :: rest' =>
              if is_decimal decimal b
              then m ← match_minutes decimal rest'; Some ([a; b], m)
              else None
          | [] => None
          end in
        match two with
        | Some r => Some r
        | None => m ← match_minutes decimal rest; Some ([a], m)
        end
      else None
  | [] => None
  end.

(** [int(g)] on a group of decimal digits. *)
Definition int_of_digits (decimal : pychar → option N) (g : pystr) : Z :=
  fold_left (λ acc c, 10 * acc + Z.of_N (default 0%N (decimal c))) g 0.

Definition _parse_time_str (decimal : pychar → option N) (t : option pystr) : Z * Z :=
  match match_time decimal (or_empty t) with
  | None => (8, 0)
  | Some (h, m) =>
      (Z.max 0 (Z.min 23 (int_of_digits decimal h)),
       Z.max 0 (Z.min 59 (int_of_digits decimal m)))
  end.

(** The decimal digits of a number, most significant first. *)
Fixpoint uint_chars (d : Decimal.uint) : pystr :=
  match d with
  | Decimal.Nil => []
  | Decimal.D0 d => 48%N :: uint_chars d
  | Decimal.D1 d => 49%N :: uint_chars d
  | Decimal.D2 d => 50%N :: uint_chars d
  | Decimal.D3 d => 51%N :: uint_chars d
  | Decimal.D4 d => 52%N :: uint_chars d
  | Decimal.D5 d => 53%N :: uint_chars d
  | Decimal.D6 d => 54%N :: uint_chars d
  | Decimal.D7 d => 55%N :: uint_chars d
  | Decimal.D8 d => 56%N :: uint_chars d
  | Decimal.D9 d => 57%N :: uint_chars d
  end.

(** [f"{n:02d}"]: the sign, then the digits padded with zeros so that the
    whole is at least two characters wide. *)
Definition format_02d (n : Z) : pystr :=
  let digits := uint_chars (N.to_uint (Z.abs_N n)) in
  if bool_decide (n < 0) then 45%N :: digits
  else replicate (2 - length digits) 48%N ++ digits.

(** [f"{hh:02d}:{mm:02d}"], the time string the Medication Reminder page
    saves. *)
Definition time_string (hh mm : Z) : pystr :=
  format_02d hh ++ [58%N] ++ format_02d mm.

(** The part of a [datetime] that [is_due_now] depends on: [replace] keeps
    the date and the time zone, which cancel in the subtraction. *)
Record datetime : Type := Datetime {
  hour : Z;
  minute : Z;
  second : Z;
  microsecond : Z
}.

(** Microseconds since midnight. *)
Definition day_micros (d : datetime) : Z :=
  ((hour d * 60 + minute d) * 60 + second d) * 1000000 + microsecond d.

(** [is_due_now(rem, now, tolerance_minutes)], where [rem] is the reminder
    dict with values that are strings or [None].

    [now - due] is an exact [timedelta] of [delta] microseconds.  The test
    [abs(delta / 10**6) / 60.0 <= tolerance_minutes] is done in floats; it
    is monotone in [delta], both divisions are exact at
    [delta = tolerance_minutes * 60 * 10**6], and one microsecond more
    already gives a quotient above the tolerance, a day being far shorter
    than the range in which a double resolves a microsecond.  So the float
    test decides [|delta| <= tolerance_minutes * 60 * 10**6]. *)
Definition is_due_now (decimal : pychar → option N) (rem : gmap string (option pystr))
    (now : datetime) (tolerance_minutes : Z) : bool :=
  let '(hh, mm) := _parse_time_str decimal (default (Some (lit "08:00")) (rem !! "time")) in
  let due := Datetime hh mm 0 0 in
  let delta := day_micros now - day_micros due in
  bool_decide (Z.abs delta ≤ tolerance_minutes * 60 * 1000000).

(** The value of the ASCII digits. *)
Definition ascii_decimal (c : pychar) : option N :=
  if bool_decide (48 ≤ c ∧ c ≤ 57)%N then Some (c - 48)%N else None.


(** * Lemmas *)

(** ** Loops that append *)

Lemma fold_left_append {A B : Type} (f : A → B) (l : list A) (acc : list B) :
  fold_left (λ acc a, acc ++ [f a]) l acc = acc ++ map f l.
Proof.
  revert acc. induction l as [|a l IH]; intros acc; simpl.
  - by rewrite app_nil_r.
  - rewrite IH. by rewrite <- app_assoc.
Qed.

Lemma score_conditions_unfold (selected : list string) :
  score_conditions selected
  = sort_desc (map (scored (list_to_set selected)) CONDITIONS).
Proof. unfold score_conditions. by rewrite fold_left_append. Qed.

(** ** The sort *)

Lemma insert_desc_perm (x : result) (l : list result) : insert_desc x l ≡ₚ x :: l.
Proof.
  induction l as [|y l IH]; simpl; [done|].
  case_bool_decide; [done|].
  rewrite IH. apply Permutation_swap.
Qed.

Lemma sort_desc_perm (l : list result) : sort_desc l ≡ₚ l.
Proof.
  induction l as [|x l IH]; simpl; [done|].
  rewrite insert_desc_perm. by rewrite IH.
Qed.

Lemma insert_desc_sorted (x : result) (l : list result) :
  StronglySorted score_ge l → StronglySorted score_ge (insert_desc x l).
Proof.
  induction 1 as [|y l Hs IH Hy]; simpl.
  - repeat constructor.
  - case_bool_decide as Hc.
    + constructor; [by constructor|].
      constructor; [done|].
      eapply Forall_impl; [exact Hy|]. unfold score_ge. intros; lia.
    + constructor; [done|].
      rewrite insert_desc_perm. constructor; [unfold score_ge; lia | done].
Qed.

Lemma sort_desc_sorted (l : list result) : StronglySorted score_ge (sort_desc l).
Proof.
  induction l as [|x l IH]; simpl; [constructor|].
  by apply insert_desc_sorted.
Qed.

Lemma insert_desc_filter (k : Z) (x : result) (l : list result) :
  filter (λ r, res_score r = k) (insert_desc x l)
  = filter (λ r, res_score r = k) (x :: l).
Proof.
  induction l as [|y l IH]; simpl; [done|].
  case_bool_decide as Hc; [done|].
  rewrite filter_cons, IH, !filter_cons.
  repeat case_decide; try done; lia.
Qed.

Lemma sort_desc_stable (k : Z) (l : list result) :
  filter (λ r, res_score r = k) (sort_desc l) = filter (λ r, res_score r = k) l.
Proof.
  induction l as [|x l IH]; simpl; [done|].
  rewrite insert_desc_filter, !filter_cons, IH. done.
Qed.

(** A list whose scores are all equal is left as it is. *)
Lemma sort_desc_constant (k : Z) (l : list result) :
  Forall (λ r, res_score r = k) l → sort_desc l = l.
Proof.
  induction 1 as [|x l Hx Hl IH]; simpl; [done|].
  rewrite IH. destruct Hl as [|y l Hy Hl]; simpl; [done|].
  rewrite bool_decide_eq_true_2; [done|lia].
Qed.

(** ** Membership tests *)

Lemma mem_true (x : string) (sel : gset string) : mem x sel = true ↔ x ∈ sel.
Proof. unfold mem. apply bool_decide_eq_true. Qed.

Lemma mem_false (x : string) (sel : gset string) : mem x sel = false ↔ x ∉ sel.
Proof. unfold mem. apply bool_decide_eq_false. Qed.

Lemma mem_list_to_set (x : string) (selected : list string) :
  mem x (list_to_set selected) = bool_decide (x ∈ selected).
Proof. unfold mem. apply bool_decide_ext. set_solver. Qed.

(** Adding a label that is not in [L] changes no test on a label of [L]. *)
Lemma agree_cons (L : list string) (x : string) (selected : list string) :
  x ∉ L → agree L (list_to_set (x :: selected)) (list_to_set selected).
Proof.
  intros Hx s Hs. rewrite !mem_list_to_set. apply bool_decide_ext.
  rewrite elem_of_cons. split; [|by right].
  intros [->|H]; [done|exact H].
Qed.

(** ** One weight entry *)

Section score_entry.
Context (sel : gset string).

Lemma score_entry_direct (score : Z) (s : string) (w : Z) :
  s ∈ sel → score_entry sel score (s, w) = score + w.
Proof. intros H. unfold score_entry. by rewrite (proj2 (mem_true _ _) H). Qed.

(** An entry that is neither selected nor one of the three bridged
    labels adds nothing. *)
Lemma score_entry_other (score : Z) (s : string) (w : Z) :
  s ∉ sel → s ≠ "shortness of breath" → s ≠ "difficulty breathing" →
  s ≠ "persistent cough" → score_entry sel score (s, w) = score.
Proof.
  intros H H1 H2 H3. unfold score_entry.
  rewrite (proj2 (mem_false _ _) H).
  by rewrite !bool_decide_eq_false_2.
Qed.

Lemma score_entry_shortness (score w : Z) :
  "difficulty breathing" ∈ sel →
  score_entry sel score ("shortness of breath", w) = score + w.
Proof.
  intros H. unfold score_entry.
  destruct (mem "shortness of breath" sel); [done|].
  by rewrite (proj2 (mem_true _ _) H).
Qed.

Lemma score_entry_difficulty (score w : Z) :
  "shortness of breath" ∈ sel →
  score_entry sel score ("difficulty breathing", w) = score + w.
Proof.
  intros H. unfold score_entry.
  destruct (mem "difficulty breathing" sel); [done|].
  by rewrite (proj2 (mem_true _ _) H).
Qed.

Lemma score_entry_cough (score w : Z) :
  "cough" ∈ sel → "persistent cough" ∉ sel →
  score_entry sel score ("persistent cough", w) = score + Z.quot w 2.
Proof.
  intros H1 H2. unfold score_entry.
  rewrite (proj2 (mem_false _ _) H2), (proj2 (mem_true _ _) H1). done.
Qed.

(** What an entry adds does not depend on the score so far. *)
Lemma score_entry_shift (score : Z) (e : string * Z) :
  score_entry sel score e = score + score_entry sel 0 e.
Proof.
  destruct e as [s w]. unfold score_entry.
  repeat match goal with |- context [if ?b then _ else _] => destruct b end; lia.
Qed.

(** An entry adds between nothing and its weight. *)
Lemma score_entry_bounds (s : string) (w : Z) :
  0 ≤ w → 0 ≤ score_entry sel 0 (s, w) ≤ w.
Proof.
  intros Hw. unfold score_entry, int_half.
  pose proof (Z.quot_pos w 2 Hw ltac:(lia)).
  pose proof (Z.quot_le_upper_bound w 2 w ltac:(lia) ltac:(lia)).
  destruct (mem s sel); [lia|].
  repeat case_bool_decide; simplify_eq/=;
    repeat match goal with |- context [if ?b then _ else _] => destruct b end;
    simpl; lia.
Qed.
End score_entry.

Lemma score_entry_ext (sel sel' : gset string) (score : Z) (s : string) (w : Z) :
  agree (s :: BRIDGE_LABELS) sel sel' →
  score_entry sel score (s, w) = score_entry sel' score (s, w).
Proof.
  intros H. unfold score_entry.
  rewrite (H s), (H "difficulty breathing"), (H "shortness of breath"),
    (H "cough"), (H "persistent cough"); [done|unfold BRIDGE_LABELS; set_solver..].
Qed.

(** A larger selection never makes an entry add less. *)
Lemma score_entry_mono (sel sel' : gset string) (s : string) (w : Z) :
  sel ⊆ sel' → 0 ≤ w → score_entry sel 0 (s, w) ≤ score_entry sel' 0 (s, w).
Proof.
  intros Hsub Hw.
  destruct (decide (s ∈ sel')) as [Hin'|Hnin'].
  { rewrite (score_entry_direct sel' 0 s w Hin').
    pose proof (score_entry_bounds sel s w Hw). lia. }
  assert (s ∉ sel) as Hnin by set_solver.
  unfold score_entry.
  rewrite (proj2 (mem_false _ _) Hnin), (proj2 (mem_false _ _) Hnin').
  assert (∀ l, mem l sel = true → mem l sel' = true) as Hm.
  { intros l. rewrite !mem_true. set_solver. }
  pose proof (Z.quot_pos w 2 Hw ltac:(lia)) as Hq. unfold int_half.
  repeat case_bool_decide; simplify_eq/=;
    rewrite ?(proj2 (mem_false _ _) Hnin), ?(proj2 (mem_false _ _) Hnin'); simpl;
    repeat match goal with
      | |- context [mem ?l sel] =>
          let E := fresh in destruct (mem l sel) eqn:E; [rewrite (Hm _ E)|]
      | |- context [mem ?l sel'] => destruct (mem l sel')
      end; simpl; lia.
Qed.

(** ** One profile *)

Lemma fold_score_shift (sel : gset string) (ws : list (string * Z)) (score : Z) :
  fold_left (score_entry sel) ws score = score + fold_left (score_entry sel) ws 0.
Proof.
  revert score. induction ws as [|e ws IH]; intros score; cbn [fold_left]; [lia|].
  rewrite IH, (IH (score_entry sel 0 e)), (score_entry_shift sel score e). lia.
Qed.

Lemma profile_score_ext (sel sel' : gset string) (spec : profile) :
  agree ((weights spec).*1 ++ BRIDGE_LABELS) sel sel' →
  profile_score sel spec = profile_score sel' spec.
Proof.
  unfold profile_score. generalize 0.
  induction (weights spec) as [|[s w] ws IH]; intros score H; cbn [fold_left]; [done|].
  rewrite (score_entry_ext sel sel').
  - apply IH. intros l Hl. apply H. by right.
  - intros l Hl. apply H. apply elem_of_cons in Hl as [->|Hl]; [by left|].
    apply elem_of_app. by right.
Qed.

Lemma profile_score_mono (sel sel' : gset string) (spec : profile) :
  sel ⊆ sel' → Forall (λ e, 0 ≤ e.2) (weights spec) →
  profile_score sel spec ≤ profile_score sel' spec.
Proof.
  intros Hsub. unfold profile_score.
  induction 1 as [|[s w] ws Hw Hws IH]; cbn [fold_left]; [done|].
  rewrite (fold_score_shift sel), (fold_score_shift sel').
  pose proof (score_entry_mono sel sel' s w Hsub Hw). lia.
Qed.

(** ** The result list *)

Lemma score_for_elem (cond : string) (rs : list result) (r : result) :
  NoDup (res_name <$> rs) → r ∈ rs → res_name r = cond →
  score_for cond rs = Some (res_score r).
Proof.
  induction rs as [|r' rs IH]; simpl; intros Hnd Hin Hname.
  - by apply elem_of_nil in Hin.
  - apply NoDup_cons in Hnd as [Hr' Hnd].
    apply elem_of_cons in Hin as [->|Hin].
    + by rewrite bool_decide_eq_true_2.
    + rewrite bool_decide_eq_false_2; [by apply IH|].
      intros Heq. apply Hr'. rewrite Heq, <- Hname.
      by apply list_elem_of_fmap_2.
Qed.

Lemma CONDITIONS_names_NoDup : NoDup (CONDITIONS.*1).
Proof. compute_done. Qed.

Lemma CONDITIONS_weights_pos :
  Forall (λ c : string * profile, Forall (λ e : string * Z, 0 < e.2) (weights c.2)) CONDITIONS.
Proof. compute_done. Qed.

Lemma CONDITIONS_threshold_pos :
  Forall (λ c : string * profile, 0 < threshold c.2) CONDITIONS.
Proof. compute_done. Qed.

Lemma scored_names (sel : gset string) :
  res_name <$> (map (scored sel) CONDITIONS) = CONDITIONS.*1.
Proof. rewrite <- list_fmap_compose. done. Qed.

Lemma score_conditions_names_NoDup (selected : list string) :
  NoDup (res_name <$> score_conditions selected).
Proof.
  rewrite score_conditions_unfold, sort_desc_perm, scored_names.
  apply CONDITIONS_names_NoDup.
Qed.

Lemma elem_of_score_conditions (selected : list string) (r : result) :
  r ∈ score_conditions selected
  ↔ ∃ c, c ∈ CONDITIONS ∧ r = scored (list_to_set selected) c.
Proof.
  rewrite score_conditions_unfold, sort_desc_perm.
  change (map ?f ?l) with (f <$> l). rewrite list_elem_of_fmap.
  split; intros (c & H1 & H2); eauto.
Qed.

Lemma score_for_score_conditions (selected : list string) (c : string * profile) :
  c ∈ CONDITIONS →
  score_for c.1 (score_conditions selected)
  = Some (profile_score (list_to_set selected) c.2).
Proof.
  intros Hc.
  apply (score_for_elem c.1 _ (scored (list_to_set selected) c)).
  - apply score_conditions_names_NoDup.
  - apply elem_of_score_conditions. eauto.
  - done.
Qed.

(** ** One red-flag rule *)

Ltac split_tests :=
  repeat match goal with
    | |- context [bool_decide ?P] => destruct (bool_decide_reflect P)
    | |- context [mem ?x ?s] =>
        let E := fresh "E" in
        destruct (mem x s) eqn:E;
        [apply mem_true in E | apply mem_false in E]
    end; simpl.

Lemma elem_of_cond_append (b : bool) (msgs : list string) (msg m : string) :
  m ∈ (if b then msgs ++ [msg] else msgs) ↔ m ∈ msgs ∨ (m = msg ∧ b = true).
Proof.
  destruct b; rewrite ?elem_of_app, ?list_elem_of_singleton; intuition congruence.
Qed.

Lemma elem_of_flag_entry (sel : gset string) (msgs : list string)
    (key msg m : string) :
  m ∈ flag_entry sel msgs (key, msg) ↔ m ∈ msgs ∨ (m = msg ∧ trigger sel key).
Proof.
  unfold flag_entry, trigger.
  destruct (bool_decide_reflect (key = "sudden weakness or slurred speech")) as [Hk|Hk];
    cbv beta iota zeta;
    rewrite !elem_of_cond_append, ?andb_true_iff, ?orb_true_iff,
      ?bool_decide_eq_true, !mem_true;
    tauto.
Qed.

Lemma elem_of_flag_loop (sel : gset string) (table : list (string * string))
    (msgs : list string) (m : string) :
  m ∈ fold_left (flag_entry sel) table msgs
  ↔ m ∈ msgs ∨ ∃ key, (key, m) ∈ table ∧ trigger sel key.
Proof.
  revert msgs. induction table as [|[key msg] table IH]; intros msgs; cbn [fold_left].
  - split; [auto|]. intros [H|(key & H & _)]; [done|]. by apply elem_of_nil in H.
  - rewrite IH, elem_of_flag_entry. split.
    + intros [[H|[-> H]]|(k & H & Ht)]; [by left|right..].
      * exists key. split; [by left|done].
      * exists k. split; [by right|done].
    + intros [H|(k & H & Ht)]; [by left; left|].
      apply elem_of_cons in H as [[= -> ->]|H]; [left; right; done|].
      right. eauto.
Qed.

Lemma elem_of_fired (sel : gset string) (m : string) :
  m ∈ fired sel
  ↔ (∃ key, (key, m) ∈ RED_FLAGS ∧ trigger sel key)
    ∨ (m = COMBINATION_MSG ∧ combination sel).
Proof.
  unfold fired, combination. cbv zeta.
  rewrite elem_of_cond_append, elem_of_flag_loop, elem_of_nil,
    andb_true_iff, orb_true_iff, !mem_true.
  tauto.
Qed.

Lemma flag_entry_ext (sel sel' : gset string) (msgs : list string) (key msg : string) :
  agree (key :: MAPPED_LABELS) sel sel' →
  flag_entry sel msgs (key, msg) = flag_entry sel' msgs (key, msg).
Proof.
  intros H. unfold flag_entry.
  rewrite (H key), (H "vomiting"), (H "abdominal pain"), (H "dizziness"),
    (H "slurred speech"), (H "sudden weakness");
    [done|unfold MAPPED_LABELS; rewrite !elem_of_cons; auto 10..].
Qed.

Lemma flag_loop_ext (sel sel' : gset string) (table : list (string * string))
    (msgs : list string) :
  agree (table.*1 ++ MAPPED_LABELS) sel sel' →
  fold_left (flag_entry sel) table msgs = fold_left (flag_entry sel') table msgs.
Proof.
  revert msgs. induction table as [|[key msg] table IH]; intros msgs H;
    cbn [fold_left]; [done|].
  rewrite (flag_entry_ext sel sel').
  - apply IH. intros l Hl. apply H. rewrite elem_of_app in *.
    destruct Hl as [Hl|Hl]; [left; by right|by right].
  - intros l Hl. apply H. apply elem_of_app.
    apply elem_of_cons in Hl as [->|Hl]; [left; by left|by right].
Qed.

Lemma fired_ext (sel sel' : gset string) :
  agree (RED_FLAGS.*1 ++ MAPPED_LABELS ++ COMBINATION_LABELS) sel sel' →
  fired sel = fired sel'.
Proof.
  unfold fired. intros H.
  rewrite (H "chest pain"), (H "difficulty breathing"), (H "shortness of breath");
    [|rewrite !elem_of_app; unfold COMBINATION_LABELS; rewrite !elem_of_cons; auto 10..].
  rewrite (flag_loop_ext sel sel'); [done|].
  intros l Hl. apply H. rewrite !elem_of_app in *. tauto.
Qed.

(** ** [dict.fromkeys] *)

Lemma fromkeys_unfold (msgs : list string) :
  fromkeys msgs = fold_left fromkeys_step msgs [].
Proof. done. Qed.

Lemma elem_of_fromkeys_loop (msgs d : list string) (m : string) :
  m ∈ fold_left fromkeys_step msgs d ↔ m ∈ d ∨ m ∈ msgs.
Proof.
  revert d. induction msgs as [|k msgs IH]; intros d; cbn [fold_left].
  - rewrite elem_of_nil. tauto.
  - rewrite IH, elem_of_cons. unfold fromkeys_step. case_bool_decide.
    + split; [tauto|]. intros [?|[->|?]]; auto.
    + rewrite elem_of_app, list_elem_of_singleton. tauto.
Qed.

Lemma fromkeys_loop_NoDup (msgs d : list string) :
  NoDup d → NoDup (fold_left fromkeys_step msgs d).
Proof.
  revert d. induction msgs as [|k msgs IH]; intros d Hd; cbn [fold_left]; [done|].
  apply IH. unfold fromkeys_step. case_bool_decide; [done|].
  apply NoDup_app. split; [done|]. split; [|apply NoDup_singleton].
  intros x Hx ->%list_elem_of_singleton. done.
Qed.

Lemma first_occurrences_ext (seen seen' l : list string) :
  (∀ x, x ∈ seen ↔ x ∈ seen') →
  first_occurrences seen l = first_occurrences seen' l.
Proof.
  revert seen seen'. induction l as [|x l IH]; intros seen seen' H; simpl; [done|].
  rewrite (bool_decide_ext _ _ (H x)). case_bool_decide; [by apply IH|].
  f_equal. apply IH. intros y. rewrite !elem_of_cons, H. done.
Qed.

Lemma fromkeys_loop_first_occurrences (msgs d : list string) :
  fold_left fromkeys_step msgs d = d ++ first_occurrences d msgs.
Proof.
  revert d. induction msgs as [|k msgs IH]; intros d; cbn [fold_left]; simpl.
  - by rewrite app_nil_r.
  - rewrite IH. unfold fromkeys_step. case_bool_decide; [done|].
    rewrite <- app_assoc. simpl. do 2 f_equal.
    apply first_occurrences_ext. intros x.
    rewrite elem_of_app, list_elem_of_singleton, elem_of_cons. tauto.
Qed.

Lemma first_occurrences_sublist (seen l : list string) :
  first_occurrences seen l `sublist_of` l.
Proof.
  revert seen. induction l as [|x l IH]; intros seen; simpl; [done|].
  case_bool_decide; [apply sublist_cons, IH|apply sublist_skip, IH].
Qed.

Lemma fromkeys_first_occurrences (msgs : list string) :
  fromkeys msgs = first_occurrences [] msgs.
Proof. rewrite fromkeys_unfold. apply fromkeys_loop_first_occurrences. Qed.

Lemma elem_of_red_flag_messages (selected : list string) (m : string) :
  m ∈ red_flag_messages selected ↔ m ∈ fired (list_to_set selected).
Proof.
  unfold red_flag_messages. rewrite fromkeys_unfold, elem_of_fromkeys_loop.
  rewrite elem_of_nil. tauto.
Qed.

(** ** The tables *)

(** Every label the code tests is in the vocabulary or is one of the six
    labels of [OUT_OF_VOCABULARY], and those six are tested and are not in
    the vocabulary. *)
Lemma REFERENCED_labels :
  Forall (λ s, s ∈ SYMPTOMS ∨ s ∈ OUT_OF_VOCABULARY) REFERENCED
  ∧ Forall (λ s, s ∈ REFERENCED ∧ s ∉ SYMPTOMS) OUT_OF_VOCABULARY.
Proof. split; compute_done. Qed.

(** Each of the six changes what one of the two functions returns. *)
Lemma OUT_OF_VOCABULARY_observable :
  Forall (λ x, score_conditions [x] ≠ score_conditions []
               ∨ red_flag_messages [x] ≠ red_flag_messages [])
    OUT_OF_VOCABULARY.
Proof. compute_done. Qed.

Lemma not_referenced (x : string) :
  x ∉ SYMPTOMS → x ∉ OUT_OF_VOCABULARY → x ∉ REFERENCED.
Proof.
  intros H1 H2 H. destruct REFERENCED_labels as [HR _].
  rewrite Forall_forall in HR. destruct (HR x H); done.
Qed.

Lemma agree_score_labels (sel sel' : gset string) (c : string * profile) :
  c ∈ CONDITIONS → agree REFERENCED sel sel' →
  agree ((weights c.2).*1 ++ BRIDGE_LABELS) sel sel'.
Proof.
  intros Hc H l Hl. apply H. unfold REFERENCED.
  apply elem_of_app in Hl as [Hl|Hl].
  - apply elem_of_app. left. apply list_elem_of_In, in_concat.
    exists ((weights c.2).*1). split; [|by apply list_elem_of_In].
    apply in_map_iff. exists c. split; [done|by apply list_elem_of_In].
  - rewrite !elem_of_app. auto.
Qed.

Lemma agree_flag_labels (sel sel' : gset string) :
  agree REFERENCED sel sel' →
  agree (RED_FLAGS.*1 ++ MAPPED_LABELS ++ COMBINATION_LABELS) sel sel'.
Proof.
  intros H l Hl. apply H. unfold REFERENCED. rewrite !elem_of_app in *. tauto.
Qed.

Lemma score_conditions_ext (selected selected' : list string) :
  agree REFERENCED (list_to_set selected) (list_to_set selected') →
  score_conditions selected = score_conditions selected'.
Proof.
  intros H. rewrite !score_conditions_unfold. f_equal.
  apply map_ext_in. intros c Hc%list_elem_of_In. unfold scored. do 3 f_equal.
  apply profile_score_ext. by apply agree_score_labels.
Qed.

Lemma red_flag_messages_ext (selected selected' : list string) :
  agree REFERENCED (list_to_set selected) (list_to_set selected') →
  red_flag_messages selected = red_flag_messages selected'.
Proof.
  intros H. unfold red_flag_messages. f_equal.
  by apply fired_ext, agree_flag_labels.
Qed.

Lemma filter_absent {A : Type} (P : A → Prop) `{∀ x, Decision (P x)} (l : list A) :
  (∀ x, x ∈ l → ¬ P x) → filter P l = [].
Proof.
  induction l as [|x l IH]; intros Hl; [done|].
  rewrite filter_cons_False; [|apply Hl; by left].
  apply IH. intros y Hy. apply Hl. by right.
Qed.

Lemma filter_name_singleton (rs : list result) (r : result) :
  NoDup (res_name <$> rs) → r ∈ rs →
  filter (λ r', res_name r' = res_name r) rs = [r].
Proof.
  induction rs as [|r' rs IH]; intros Hnd Hin.
  - by apply elem_of_nil in Hin.
  - rewrite fmap_cons in Hnd. apply NoDup_cons in Hnd as [Hr' Hnd].
    apply elem_of_cons in Hin as [->|Hin].
    + rewrite filter_cons_True by done. f_equal.
      apply filter_absent. intros y Hy Heq. apply Hr'. rewrite <- Heq.
      by apply list_elem_of_fmap_2.
    + rewrite filter_cons_False; [by apply IH|].
      intros Heq. apply Hr'. rewrite Heq. by apply list_elem_of_fmap_2.
Qed.

(** * The specification's properties *)

(** ** Labels outside the vocabulary *)

(** C1, as stated, fails: "sudden severe headache" and "slurred speech" are
    not in [SYMPTOMS], yet the first gives the Stroke profile a score of 3
    (0 without it) and the second fires the stroke warning (nothing fires
    on the empty selection). *)
Lemma unknown_label_counterexample :
  ("sudden severe headache" ∉ SYMPTOMS)
  ∧ score_for "Stroke (🚨 EMERGENCY suggestion)"
      (score_conditions ["sudden severe headache"]) = Some 3
  ∧ score_for "Stroke (🚨 EMERGENCY suggestion)" (score_conditions []) = Some 0
  ∧ ("slurred speech" ∉ SYMPTOMS)
  ∧ red_flag_messages ["slurred speech"]
    = ["Possible stroke — seek emergency care immediately."]
  ∧ red_flag_messages [] = [].
Proof. repeat split; compute_done. Qed.

(** C1 (amended): a label that is neither in [SYMPTOMS] nor one of the six
    out-of-vocabulary labels the tables and rules name ("persistent
    vomiting", "severe abdominal pain", "sudden weakness or slurred speech",
    "slurred speech", "sudden weakness", "sudden severe headache") is
    ignored by both functions: it is none of the labels either function
    tests, so no weight entry and no red-flag trigger matches it, and
    adding it to any selection changes neither the list [score_conditions]
    returns (no score changes) nor the list [red_flag_messages] returns
    (no message fires). *)
Theorem unreferenced_label_ignored (selected : list string) (x : string) :
  x ∉ SYMPTOMS → x ∉ OUT_OF_VOCABULARY →
  (x ∉ REFERENCED)
  ∧ score_conditions (x :: selected) = score_conditions selected
  ∧ red_flag_messages (x :: selected) = red_flag_messages selected.
Proof.
  intros H1 H2. pose proof (not_referenced x H1 H2) as Hx.
  split; [done|]. split.
  - apply score_conditions_ext. by apply agree_cons.
  - apply red_flag_messages_ext. by apply agree_cons.
Qed.

Lemma unreferenced_label_ignored_witness :
  ("itchy eyes" ∉ REFERENCED)
  ∧ score_conditions ["itchy eyes"; "fever"; "cough"] = score_conditions ["fever"; "cough"]
  ∧ red_flag_messages ["itchy eyes"; "fever"; "cough"] = red_flag_messages ["fever"; "cough"].
Proof.
  apply (unreferenced_label_ignored ["fever"; "cough"] "itchy eyes"); compute_done.
Defined.

(** ** Completeness of scoring *)

(** C2: whatever the selection (the empty one included), [score_conditions]
    returns one entry per profile of [CONDITIONS] and nothing else: the
    result is a rearrangement of the table's profiles, each turned into
    (name, raw score, advice, threshold), and for each profile the entries
    of the result under its name are that one tuple, whether or not the
    score reaches the threshold. *)
Theorem score_conditions_one_entry_per_profile (selected : list string) :
  length (score_conditions selected) = length CONDITIONS
  ∧ score_conditions selected
    ≡ₚ map (λ c : string * profile,
              (c.1, profile_score (list_to_set selected) c.2, advice c.2, threshold c.2))
         CONDITIONS
  ∧ Forall (λ c : string * profile,
      filter (λ r, res_name r = c.1) (score_conditions selected)
      = [(c.1, profile_score (list_to_set selected) c.2, advice c.2, threshold c.2)])
      CONDITIONS.
Proof.
  assert (score_conditions selected ≡ₚ map (scored (list_to_set selected)) CONDITIONS)
    as Hperm by (rewrite score_conditions_unfold; apply sort_desc_perm).
  split; [by rewrite Hperm, length_map|]. split; [exact Hperm|].
  apply Forall_forall. intros c Hc.
  apply (filter_name_singleton _ (scored (list_to_set selected) c)).
  - apply score_conditions_names_NoDup.
  - apply elem_of_score_conditions. eauto.
Qed.

(** ** Monotonicity *)

(** C3: for every selection S, every label x and every profile, the score
    [score_conditions] gives the profile on S with x added is at least the
    score it gives on S. *)
Theorem score_monotone (selected : list string) (x : string) :
  Forall (λ c : string * profile,
    ∃ a b, score_for c.1 (score_conditions selected) = Some a
           ∧ score_for c.1 (score_conditions (x :: selected)) = Some b
           ∧ a ≤ b)
    CONDITIONS.
Proof.
  apply Forall_forall. intros c Hc.
  eexists _, _. rewrite !score_for_score_conditions by done.
  split; [done|]. split; [done|].
  apply profile_score_mono; [apply union_subseteq_r|].
  pose proof CONDITIONS_weights_pos as Hpos.
  rewrite Forall_forall in Hpos. specialize (Hpos c Hc).
  eapply Forall_impl; [exact Hpos|]. simpl. intros; lia.
Qed.

(** ** The breathing bridge *)

Lemma fold_score_split (sel : gset string) (pre post : list (string * Z))
    (e : string * Z) :
  fold_left (score_entry sel) (pre ++ e :: post) 0
  = fold_left (score_entry sel) (pre ++ post) 0 + score_entry sel 0 e.
Proof.
  rewrite !fold_left_app. cbn [fold_left].
  generalize (fold_left (score_entry sel) pre 0). intros a.
  rewrite (fold_score_shift sel post (score_entry sel a e)).
  rewrite (fold_score_shift sel post a), (score_entry_shift sel a e).
  lia.
Qed.

Lemma score_for_split (selected : list string) (c : string * profile)
    (pre post : list (string * Z)) (e : string * Z) :
  c ∈ CONDITIONS → weights c.2 = pre ++ e :: post →
  score_for c.1 (score_conditions selected)
  = Some (fold_left (score_entry (list_to_set selected)) (pre ++ post) 0
          + score_entry (list_to_set selected) 0 e).
Proof.
  intros Hc Hw. rewrite score_for_score_conditions by done.
  unfold profile_score. by rewrite Hw, fold_score_split.
Qed.

Lemma breathing_labels_interchangeable (selected : list string) (x y : string) :
  (x = "difficulty breathing" ∧ y = "shortness of breath")
  ∨ (x = "shortness of breath" ∧ y = "difficulty breathing") →
  x ∈ selected → score_conditions (y :: selected) = score_conditions selected.
Proof.
  intros Hxy Hx. rewrite !score_conditions_unfold. f_equal.
  apply map_ext_in. intros c _. unfold scored. do 3 f_equal.
  assert (x ∈ (list_to_set selected : gset string)) as Hx1
    by by apply elem_of_list_to_set.
  assert (x ∈ (list_to_set (y :: selected) : gset string)) as Hx2
    by (apply elem_of_list_to_set; by right).
  assert (y ∈ (list_to_set (y :: selected) : gset string)) as Hy2
    by (apply elem_of_list_to_set; by left).
  unfold profile_score. generalize 0.
  induction (weights c.2) as [|[s w] ws IH]; intros score; cbn [fold_left]; [done|].
  rewrite IH. f_equal.
  destruct (decide (s = y)) as [->|Hsy].
  - rewrite score_entry_direct by done.
    destruct Hxy as [[-> ->]|[-> ->]];
      [by rewrite score_entry_shortness|by rewrite score_entry_difficulty].
  - assert (∀ l, l ≠ y → mem l (list_to_set (y :: selected))
                         = mem l (list_to_set selected)) as Hm.
    { intros l Hl. rewrite !mem_list_to_set. apply bool_decide_ext.
      rewrite elem_of_cons. split; [by intros [->|?]|by right]. }
    destruct (decide (s = x)) as [->|Hsx]; [by rewrite !score_entry_direct|].
    assert (s ≠ "shortness of breath" ∧ s ≠ "difficulty breathing"
            ∧ "cough" ≠ y ∧ "persistent cough" ≠ y) as (Hs1 & Hs2 & Hc1 & Hc2)
      by (destruct Hxy as [[-> ->]|[-> ->]]; done).
    unfold score_entry. rewrite (Hm s Hsy), (Hm "cough" Hc1), (Hm "persistent cough" Hc2).
    by rewrite (bool_decide_eq_false_2 _ Hs1), (bool_decide_eq_false_2 _ Hs2).
Qed.

(** C4: a "shortness of breath" entry gets its full weight when "difficulty
    breathing" is selected, and a "difficulty breathing" entry gets its full
    weight when "shortness of breath" is selected, and that weight reaches
    the score [score_conditions] returns: the score of a profile with such an
    entry of weight w is w plus what its other entries give.  With one of
    the two labels selected, selecting the other as well changes nothing.
    So the selections {"difficulty breathing"} and {"shortness of breath"}
    give the same score to every profile whose weight table names either
    label (COVID-19: 3, Lower Respiratory Infection / Asthma: 6, Heart
    Attack: 4), and indeed the same result list. *)
Theorem breathing_bridge_symmetric :
  (∀ (sel : gset string) (score w : Z),
     "difficulty breathing" ∈ sel →
     score_entry sel score ("shortness of breath", w) = score + w)
  ∧ (∀ (sel : gset string) (score w : Z),
       "shortness of breath" ∈ sel →
       score_entry sel score ("difficulty breathing", w) = score + w)
  ∧ (∀ (selected : list string) (c : string * profile)
       (pre post : list (string * Z)) (w : Z),
       c ∈ CONDITIONS →
       (weights c.2 = pre ++ ("shortness of breath", w) :: post
        ∧ "difficulty breathing" ∈ selected)
       ∨ (weights c.2 = pre ++ ("difficulty breathing", w) :: post
          ∧ "shortness of breath" ∈ selected) →
       score_for c.1 (score_conditions selected)
       = Some (fold_left (score_entry (list_to_set selected)) (pre ++ post) 0 + w))
  ∧ (∀ selected : list string,
       "difficulty breathing" ∈ selected →
       score_conditions ("shortness of breath" :: selected) = score_conditions selected)
  ∧ (∀ selected : list string,
       "shortness of breath" ∈ selected →
       score_conditions ("difficulty breathing" :: selected) = score_conditions selected)
  ∧ Forall (λ c : string * profile,
      "difficulty breathing" ∈ (weights c.2).*1
      ∨ "shortness of breath" ∈ (weights c.2).*1 →
      ∃ a, score_for c.1 (score_conditions ["difficulty breathing"]) = Some a
           ∧ score_for c.1 (score_conditions ["shortness of breath"]) = Some a)
      CONDITIONS
  ∧ (filter (λ c : string * profile,
       "difficulty breathing" ∈ (weights c.2).*1
       ∨ "shortness of breath" ∈ (weights c.2).*1) CONDITIONS).*1
    = ["COVID-19 (possible)"; "Lower Respiratory Infection / Asthma";
       "Heart Attack (🚨 EMERGENCY)"]
  ∧ map (λ cond, score_for cond (score_conditions ["difficulty breathing"]))
      ["COVID-19 (possible)"; "Lower Respiratory Infection / Asthma";
       "Heart Attack (🚨 EMERGENCY)"]
    = [Some 3; Some 6; Some 4]
  ∧ map (λ cond, score_for cond (score_conditions ["shortness of breath"]))
      ["COVID-19 (possible)"; "Lower Respiratory Infection / Asthma";
       "Heart Attack (🚨 EMERGENCY)"]
    = [Some 3; Some 6; Some 4]
  ∧ score_conditions ["difficulty breathing"] = score_conditions ["shortness of breath"].
Proof.
  split; [exact score_entry_shortness|]. split; [exact score_entry_difficulty|].
  assert (score_conditions ["difficulty breathing"]
          = score_conditions ["shortness of breath"]) as Heq by compute_done.
  split; [|split; [|split; [|split; [|split; [compute_done|]]]]].
  - intros selected c pre post w Hc [[Hw Hs]|[Hw Hs]];
      rewrite (score_for_split selected c pre post _ Hc Hw); do 2 f_equal.
    + apply score_entry_shortness. by apply elem_of_list_to_set.
    + apply score_entry_difficulty. by apply elem_of_list_to_set.
  - intros selected.
    apply (breathing_labels_interchangeable selected "difficulty breathing"); auto.
  - intros selected.
    apply (breathing_labels_interchangeable selected "shortness of breath"); auto.
  - apply Forall_forall. intros c Hc _. rewrite Heq.
    rewrite score_for_score_conditions by done. eauto.
  - split; [compute_done|]. split; [compute_done|exact Heq].
Qed.

Lemma breathing_bridge_symmetric_witness :
  score_entry {["difficulty breathing"]} 0 ("shortness of breath", 4) = 0 + 4
  ∧ score_entry {["shortness of breath"]} 0 ("difficulty breathing", 3) = 0 + 3.
Proof.
  destruct breathing_bridge_symmetric as (H1 & H2 & _).
  split; [apply H1|apply H2]; apply elem_of_singleton; reflexivity.
Defined.

(** ** Partial credit for cough *)

(** C5: when the selection has "cough" and not "persistent cough", a
    "persistent cough" entry of weight w of any profile of [CONDITIONS] adds
    exactly w divided by 2, truncated toward zero, to the profile's score;
    [score_conditions] on {"cough"} gives Tuberculosis the score 1 (its
    "persistent cough" weight is 3). *)
Theorem cough_partial_credit (selected : list string) :
  "cough" ∈ selected → "persistent cough" ∉ selected →
  Forall (λ c : string * profile,
    ∀ w : Z, ("persistent cough", w) ∈ weights c.2 →
      ∀ score : Z,
        score_entry (list_to_set selected) score ("persistent cough", w)
        = score + Z.quot w 2)
    CONDITIONS
  ∧ ("Tuberculosis (possible)",
     Profile [("persistent cough", 3); ("weight loss", 2); ("night sweats", 2); ("fever", 1)]
       "Persistent cough with weight loss/night sweats may suggest TB. Seek testing at a clinic."
       4) ∈ CONDITIONS
  ∧ score_for "Tuberculosis (possible)" (score_conditions ["cough"]) = Some 1.
Proof.
  intros H1 H2. split; [|split; compute_done].
  apply Forall_forall. intros c _ w _ score.
  apply score_entry_cough; set_solver.
Qed.

Lemma cough_partial_credit_witness :
  score_entry (list_to_set ["fever"; "cough"]) 0 ("persistent cough", 3) = 0 + Z.quot 3 2.
Proof.
  destruct (cough_partial_credit ["fever"; "cough"]) as (H & _ & _); [compute_done..|].
  rewrite Forall_forall in H.
  apply (H ("Tuberculosis (possible)",
     Profile [("persistent cough", 3); ("weight loss", 2); ("night sweats", 2); ("fever", 1)]
       "Persistent cough with weight loss/night sweats may suggest TB. Seek testing at a clinic."
       4)); compute_done.
Defined.

(** ** Order of the result *)

(** C6: the list [score_conditions] returns is in descending order of score,
    and the entries that share a score are in the order of their profiles
    in [CONDITIONS]; on the empty selection every score is 0 and the result
    is the table in its own order. *)
Theorem score_conditions_sorted_stable (selected : list string) :
  StronglySorted (λ a b, res_score b ≤ res_score a) (score_conditions selected)
  ∧ (∀ k : Z,
       filter (λ r, res_score r = k) (score_conditions selected)
       = filter (λ r, res_score r = k)
           (map (λ c : string * profile,
                   (c.1, profile_score (list_to_set selected) c.2, advice c.2,
                    threshold c.2))
              CONDITIONS))
  ∧ score_conditions []
    = map (λ c : string * profile, (c.1, 0, advice c.2, threshold c.2)) CONDITIONS.
Proof.
  split; [|split].
  - rewrite score_conditions_unfold. apply sort_desc_sorted.
  - intros k. rewrite score_conditions_unfold. apply sort_desc_stable.
  - vm_compute. reflexivity.
Qed.

(** ** Red flags *)

(** C7: whenever "chest pain" is selected together with "difficulty
    breathing" or "shortness of breath", [red_flag_messages] returns the
    combination message, which is the message of no single rule, along with
    the chest-pain message and the message of each breathing label that is
    selected; on {"chest pain", "difficulty breathing"} the result is those
    three messages and nothing else. *)
Theorem combination_red_flag (selected : list string) :
  "chest pain" ∈ selected →
  "difficulty breathing" ∈ selected ∨ "shortness of breath" ∈ selected →
  "Combination of chest pain and breathing difficulty — this may be life-threatening."
    ∈ red_flag_messages selected
  ∧ "Chest pain can indicate a heart or lung emergency." ∈ red_flag_messages selected
  ∧ ("difficulty breathing" ∈ selected →
     "Breathing difficulty is an emergency sign." ∈ red_flag_messages selected)
  ∧ ("shortness of breath" ∈ selected →
     "Shortness of breath may require urgent care." ∈ red_flag_messages selected)
  ∧ (COMBINATION_MSG ∉ RED_FLAGS.*2)
  ∧ red_flag_messages ["chest pain"; "difficulty breathing"]
    = ["Chest pain can indicate a heart or lung emergency.";
       "Breathing difficulty is an emergency sign.";
       "Combination of chest pain and breathing difficulty — this may be life-threatening."].
Proof.
  intros Hc Hb.
  assert (∀ key msg, (key, msg) ∈ RED_FLAGS → key ∈ selected →
            msg ∈ red_flag_messages selected) as Hdirect.
  { intros key msg Ht Hk. apply elem_of_red_flag_messages, elem_of_fired.
    left. exists key. split; [done|]. left. by apply elem_of_list_to_set. }
  split; [|split; [|split; [|split; [|split]]]].
  - apply elem_of_red_flag_messages, elem_of_fired. right. split; [done|].
    unfold combination. rewrite !elem_of_list_to_set. done.
  - apply (Hdirect "chest pain"); [compute_done|done].
  - apply (Hdirect "difficulty breathing"). compute_done.
  - apply (Hdirect "shortness of breath"). compute_done.
  - compute_done.
  - vm_compute. reflexivity.
Qed.

Lemma combination_red_flag_witness :
  COMBINATION_MSG ∈ red_flag_messages ["shortness of breath"; "fever"; "chest pain"].
Proof.
  apply (combination_red_flag ["shortness of breath"; "fever"; "chest pain"]).
  - compute_done.
  - right. compute_done.
Defined.

(** The list before [dict.fromkeys] can repeat a message: the "persistent
    vomiting" rule fires once on its own key and once on "vomiting". *)
Example fired_twice :
  fired (list_to_set ["vomiting"; "persistent vomiting"])
  = ["Risk of dehydration; seek care if severe."; "Risk of dehydration; seek care if severe."]
  ∧ red_flag_messages ["vomiting"; "persistent vomiting"]
    = ["Risk of dehydration; seek care if severe."].
Proof. split; vm_compute; reflexivity. Qed.

(** C8: [red_flag_messages] is a total function whose result never repeats
    a message: it is the list of the first occurrences of the messages
    fired, in the order they fired (a sublist of the fired list with the
    same messages); on the empty selection it is empty. *)
Theorem red_flag_messages_unique (selected : list string) :
  NoDup (red_flag_messages selected)
  ∧ red_flag_messages selected = first_occurrences [] (fired (list_to_set selected))
  ∧ red_flag_messages selected `sublist_of` fired (list_to_set selected)
  ∧ (∀ m : string,
       m ∈ red_flag_messages selected ↔ m ∈ fired (list_to_set selected))
  ∧ red_flag_messages [] = [].
Proof.
  assert (red_flag_messages selected
          = first_occurrences [] (fired (list_to_set selected))) as Hfirst
    by apply fromkeys_first_occurrences.
  split; [|split; [|split; [|split]]].
  - unfold red_flag_messages. rewrite fromkeys_unfold.
    apply fromkeys_loop_NoDup, NoDup_nil_2.
  - exact Hfirst.
  - rewrite Hfirst. apply first_occurrences_sublist.
  - apply elem_of_red_flag_messages.
  - reflexivity.
Qed.

(** C9: every selection containing "dizziness", a label of the vocabulary,
    gets the stroke warning; "dizziness" alone gets exactly that warning. *)
Theorem dizziness_fires_stroke_warning (selected : list string) :
  "dizziness" ∈ selected →
  "Possible stroke — seek emergency care immediately." ∈ red_flag_messages selected
  ∧ "dizziness" ∈ SYMPTOMS
  ∧ red_flag_messages ["dizziness"]
    = ["Possible stroke — seek emergency care immediately."].
Proof.
  intros H. split; [|split; [compute_done|vm_compute; reflexivity]].
  apply elem_of_red_flag_messages, elem_of_fired. left.
  exists "sudden weakness or slurred speech". split; [compute_done|].
  unfold trigger. rewrite !elem_of_list_to_set. auto 10.
Qed.

Lemma dizziness_fires_stroke_warning_witness :
  "Possible stroke — seek emergency care immediately."
    ∈ red_flag_messages ["fever"; "dizziness"].
Proof.
  apply (dizziness_fires_stroke_warning ["fever"; "dizziness"]). compute_done.
Defined.

(** ** Double counting in a profile that lists both breathing labels *)

(** C10: the "Lower Respiratory Infection / Asthma" profile lists both
    breathing labels with weight 3; on {"difficulty breathing"} its entries
    add 0, 3, 0, 3, 0 (the direct entry and the bridged one), so
    [score_conditions] gives it 6, and likewise on {"shortness of breath"}. *)
Theorem breathing_double_count :
  ("Lower Respiratory Infection / Asthma",
   Profile [("cough", 2); ("difficulty breathing", 3); ("chest pain", 2);
            ("shortness of breath", 3); ("fatigue", 1)]
     "Possible chest infection or asthma exacerbation. Seek medical help if breathing is hard."
     4) ∈ CONDITIONS
  ∧ map (score_entry (list_to_set ["difficulty breathing"]) 0)
      [("cough", 2); ("difficulty breathing", 3); ("chest pain", 2);
       ("shortness of breath", 3); ("fatigue", 1)]
    = [0; 3; 0; 3; 0]
  ∧ map (score_entry (list_to_set ["shortness of breath"]) 0)
      [("cough", 2); ("difficulty breathing", 3); ("chest pain", 2);
       ("shortness of breath", 3); ("fatigue", 1)]
    = [0; 3; 0; 3; 0]
  ∧ score_for "Lower Respiratory Infection / Asthma"
      (score_conditions ["difficulty breathing"]) = Some 6
  ∧ score_for "Lower Respiratory Infection / Asthma"
      (score_conditions ["shortness of breath"]) = Some 6.
Proof. repeat split; compute_done. Qed.

(** ** The specification's first scenario *)

Example scenario_fever_chills_headache :
  score_for "Malaria" (score_conditions ["fever"; "chills"; "headache"]) = Some 7
  ∧ score_for "Typhoid" (score_conditions ["fever"; "chills"; "headache"]) = Some 3.
Proof. split; vm_compute; reflexivity. Qed.

(** * Further properties of the symptom checker *)

Lemma list_to_set_ext (selected selected' : list string) :
  (∀ x, x ∈ selected ↔ x ∈ selected') →
  (list_to_set selected : gset string) = list_to_set selected'.
Proof. intros H. apply set_eq. intros x. by rewrite !elem_of_list_to_set. Qed.

(** X1: the two functions look at the selection as a set: two lists with
    the same labels, in any order and with any repetitions, get the same
    result list and the same messages. *)
Theorem selection_order_irrelevant (selected selected' : list string) :
  (∀ x, x ∈ selected ↔ x ∈ selected') →
  score_conditions selected = score_conditions selected'
  ∧ red_flag_messages selected = red_flag_messages selected'.
Proof.
  intros H%list_to_set_ext. unfold score_conditions, red_flag_messages.
  by rewrite H.
Qed.

Lemma selection_order_irrelevant_witness :
  score_conditions ["cough"; "fever"; "cough"] = score_conditions ["fever"; "cough"]
  ∧ red_flag_messages ["cough"; "fever"; "cough"] = red_flag_messages ["fever"; "cough"].
Proof.
  apply selection_order_irrelevant. intros x.
  rewrite !elem_of_cons, elem_of_nil. tauto.
Defined.

Lemma profile_score_bounds (sel : gset string) (spec : profile) :
  Forall (λ e : string * Z, 0 ≤ e.2) (weights spec) →
  0 ≤ profile_score sel spec ≤ total_weight spec.
Proof.
  unfold profile_score, total_weight.
  induction 1 as [|[s w] ws Hw Hws IH]; cbn [fold_left foldr]; [lia|].
  rewrite fold_score_shift.
  pose proof (score_entry_bounds sel s w Hw). simpl in *. lia.
Qed.

Lemma CONDITIONS_weights_nonneg (c : string * profile) :
  c ∈ CONDITIONS → Forall (λ e : string * Z, 0 ≤ e.2) (weights c.2).
Proof.
  intros Hc. pose proof CONDITIONS_weights_pos as Hpos.
  rewrite Forall_forall in Hpos. specialize (Hpos c Hc).
  eapply Forall_impl; [exact Hpos|]. simpl. intros; lia.
Qed.

(** X2: whatever is selected, the score of each profile is at least 0 and
    at most the sum of the profile's weights. *)
Theorem score_between_zero_and_total (selected : list string) :
  Forall (λ c : string * profile,
    ∃ a, score_for c.1 (score_conditions selected) = Some a
         ∧ 0 ≤ a ≤ total_weight c.2)
    CONDITIONS.
Proof.
  apply Forall_forall. intros c Hc. eexists.
  split; [by apply score_for_score_conditions|].
  by apply profile_score_bounds, CONDITIONS_weights_nonneg.
Qed.

(** ** Possible matches *)

Lemma elem_of_possible_matches (selected : list string) (r : result) :
  r ∈ possible_matches selected
  ↔ ∃ c, c ∈ CONDITIONS ∧ r = scored (list_to_set selected) c
         ∧ threshold c.2 ≤ profile_score (list_to_set selected) c.2.
Proof.
  unfold possible_matches. rewrite list_elem_of_filter, elem_of_score_conditions.
  split.
  - intros [Hr (c & Hc & ->)]. eauto.
  - intros (c & Hc & -> & Hr). eauto.
Qed.

Lemma found_any_spec (selected : list string) :
  found_any selected = true ↔ possible_matches selected ≠ [].
Proof.
  unfold found_any, possible_matches.
  assert (∀ (l : list result) (b : bool),
    fold_left (λ found r, if bool_decide (res_threshold r ≤ res_score r) then true else found)
      l b = true
    ↔ b = true ∨ filter (λ r, res_threshold r ≤ res_score r) l ≠ []) as Hl.
  { induction l as [|r l IH]; intros b; cbn [fold_left].
    - rewrite filter_nil. split; [auto|]. by intros [?|?].
    - rewrite IH, filter_cons. case_bool_decide.
      + rewrite decide_True by done. split; [by right|by left].
      + by rewrite decide_False by done. }
  rewrite Hl. split; [by intros [?|?]|by right].
Qed.

Lemma mem_mono (sel sel' : gset string) (x : string) :
  sel ⊆ sel' → mem x sel = true → mem x sel' = true.
Proof. rewrite !mem_true. intros Hs Hx. by apply Hs. Qed.

Lemma list_to_set_mono (selected selected' : list string) :
  (∀ x, x ∈ selected → x ∈ selected') →
  (list_to_set selected : gset string) ⊆ list_to_set selected'.
Proof. intros H x. rewrite !elem_of_list_to_set. apply H. Qed.

(** X3: a condition shown as a possible match stays one when more symptoms
    are selected, with a score that is at least as high. *)
Theorem possible_matches_monotone (selected selected' : list string) (r : result) :
  (∀ x, x ∈ selected → x ∈ selected') →
  r ∈ possible_matches selected →
  ∃ r', r' ∈ possible_matches selected'
        ∧ res_name r' = res_name r ∧ res_score r ≤ res_score r'.
Proof.
  intros Hsub%list_to_set_mono (c & Hc & -> & Hr)%elem_of_possible_matches.
  pose proof (profile_score_mono _ _ c.2 Hsub (CONDITIONS_weights_nonneg c Hc)) as Hm.
  exists (scored (list_to_set selected') c). split; [|done].
  apply elem_of_possible_matches. exists c. split; [done|]. split; [done|lia].
Qed.

Lemma possible_matches_monotone_witness :
  ∃ r', r' ∈ possible_matches ["headache"; "fever"; "chills"]
        ∧ res_name r' = "Malaria" ∧ 5 ≤ res_score r'.
Proof.
  apply (possible_matches_monotone ["fever"; "chills"] ["headache"; "fever"; "chills"]
           ("Malaria", 5,
            "Possible malaria. Rest, hydrate, and seek testing/treatment at a clinic.", 4)).
  - intros x Hx. by right.
  - vm_compute. left.
Defined.

(** X4: the Stroke profile cannot be reached from the vocabulary: when
    every selected label is in [SYMPTOMS] its score is 2 if "dizziness" is
    selected and 0 otherwise, below its threshold of 5, so Stroke is never
    among the possible matches; the other eleven profiles all match when
    the whole vocabulary is selected. *)
Theorem stroke_never_matches (selected : list string) :
  (∀ x, x ∈ selected → x ∈ SYMPTOMS) →
  score_for "Stroke (🚨 EMERGENCY suggestion)" (score_conditions selected)
  = Some (if bool_decide ("dizziness" ∈ selected) then 2 else 0)
  ∧ ("Stroke (🚨 EMERGENCY suggestion)" ∉ res_name <$> possible_matches selected)
  ∧ length (possible_matches SYMPTOMS) = 11%nat.
Proof.
  intros Hvoc.
  set (stroke := ("Stroke (🚨 EMERGENCY suggestion)",
     Profile [("sudden weakness or slurred speech", 5); ("dizziness", 2);
              ("sudden severe headache", 3)]
       "Sudden weakness or slurred speech may indicate stroke. Seek emergency care immediately."
       5) : string * profile).
  assert (stroke ∈ CONDITIONS) as Hin by compute_done.
  assert (profile_score (list_to_set selected) stroke.2
          = if bool_decide ("dizziness" ∈ selected) then 2 else 0) as Hscore.
  { unfold profile_score. cbn [stroke snd weights fold_left].
    rewrite (score_entry_other _ 0 "sudden weakness or slurred speech"); [|
      rewrite elem_of_list_to_set; intros H%Hvoc; revert H; compute_done | done..].
    rewrite (score_entry_other _ _ "sudden severe headache"); [|
      rewrite elem_of_list_to_set; intros H%Hvoc; revert H; compute_done | done..].
    case_bool_decide as Hd.
    - by rewrite score_entry_direct by by apply elem_of_list_to_set.
    - rewrite score_entry_other; [done|by rewrite elem_of_list_to_set|done..]. }
  split; [|split; [|compute_done]].
  - rewrite <- Hscore. by apply (score_for_score_conditions selected stroke).
  - intros (r & Hname & (c & Hc & -> & Hr)%elem_of_possible_matches)%list_elem_of_fmap.
    assert (Forall (λ c : string * profile,
              c.1 = "Stroke (🚨 EMERGENCY suggestion)" → c = stroke) CONDITIONS)
      as Huniq by compute_done.
    rewrite Forall_forall in Huniq. rewrite (Huniq c Hc (eq_sym Hname)) in Hr.
    rewrite Hscore in Hr. cbn in Hr. case_bool_decide; lia.
Qed.

Lemma stroke_never_matches_witness :
  score_for "Stroke (🚨 EMERGENCY suggestion)" (score_conditions ["dizziness"; "headache"])
  = Some (if bool_decide ("dizziness" ∈ ["dizziness"; "headache"]) then 2 else 0).
Proof.
  apply (stroke_never_matches ["dizziness"; "headache"]).
  intros x Hx. apply elem_of_cons in Hx as [->|Hx]; [compute_done|].
  apply elem_of_cons in Hx as [->|Hx]; [compute_done|].
  by apply elem_of_nil in Hx.
Defined.

(** X5: a selection none of whose labels is tested by the code (the empty
    selection is one) gets every profile at score 0 in table order, no
    possible match, so "No strong match" is shown, and no red flag. *)
Theorem unreferenced_selection_inert (selected : list string) :
  (∀ x, x ∈ selected → x ∉ REFERENCED) →
  score_conditions selected
  = map (λ c : string * profile, (c.1, 0, advice c.2, threshold c.2)) CONDITIONS
  ∧ possible_matches selected = []
  ∧ found_any selected = false
  ∧ red_flag_messages selected = [].
Proof.
  intros H.
  assert (agree REFERENCED (list_to_set selected) (list_to_set [])) as Ha.
  { intros s Hs. rewrite !mem_list_to_set. apply bool_decide_ext.
    rewrite elem_of_nil. split; [|done]. intros Hx. by apply (H s). }
  assert (score_conditions selected = score_conditions []) as Hsc
    by by apply score_conditions_ext.
  assert (possible_matches selected = []) as Hpm
    by (unfold possible_matches; rewrite Hsc; compute_done).
  split; [rewrite Hsc; vm_compute; reflexivity|]. split; [done|]. split.
  - apply not_true_is_false. rewrite found_any_spec. by intros [].
  - rewrite (red_flag_messages_ext selected []) by done. reflexivity.
Qed.

Lemma unreferenced_selection_inert_witness :
  possible_matches ["itchy eyes"; "hiccups"] = []
  ∧ red_flag_messages ["itchy eyes"; "hiccups"] = [].
Proof.
  destruct (unreferenced_selection_inert ["itchy eyes"; "hiccups"]) as (_ & H1 & _ & H2).
  - intros x Hx. apply elem_of_cons in Hx as [->|Hx]; [compute_done|].
    apply elem_of_cons in Hx as [->|Hx]; [compute_done|].
    by apply elem_of_nil in Hx.
  - by split.
Defined.

(** ** Red flags over all selections *)

Lemma trigger_mono (sel sel' : gset string) (key : string) :
  sel ⊆ sel' → trigger sel key → trigger sel' key.
Proof.
  intros Hs. unfold trigger.
  intros [H|[[-> H]|[[-> H]|[-> [H|[H|H]]]]]]; auto 10.
Qed.

(** X6: selecting more never withdraws a warning: every message returned
    for a selection is returned for any selection that contains it. *)
Theorem red_flags_monotone (selected selected' : list string) (m : string) :
  (∀ x, x ∈ selected → x ∈ selected') →
  m ∈ red_flag_messages selected → m ∈ red_flag_messages selected'.
Proof.
  intros Hsub%list_to_set_mono. rewrite !elem_of_red_flag_messages, !elem_of_fired.
  intros [(key & Hk & Ht)|[-> [Hc Hb]]].
  - left. exists key. split; [done|]. by apply (trigger_mono _ _ _ Hsub).
  - right. split; [done|]. split; [by apply Hsub|].
    destruct Hb as [Hb|Hb]; [left|right]; by apply Hsub.
Qed.

Lemma red_flags_monotone_witness :
  "Breathing difficulty is an emergency sign."
    ∈ red_flag_messages ["fever"; "difficulty breathing"; "chest pain"].
Proof.
  apply (red_flags_monotone ["difficulty breathing"]).
  - intros x Hx. apply elem_of_cons in Hx as [->|Hx]; [compute_done|].
    by apply elem_of_nil in Hx.
  - compute_done.
Defined.

(** X7: the red-flag list is empty, so that no banner is shown, exactly
    when none of the thirteen labels the rules look for is selected: the
    eight keys of [RED_FLAGS] and "vomiting", "abdominal pain", "dizziness",
    "slurred speech", "sudden weakness". *)
Theorem red_flags_empty_iff (selected : list string) :
  red_flag_messages selected = []
  ↔ ∀ x, x ∈ RED_FLAGS.*1 ++ MAPPED_LABELS → x ∉ selected.
Proof.
  assert (red_flag_messages selected = []
          ↔ ∀ m, m ∉ fired (list_to_set selected)) as ->.
  { split.
    - intros H m Hm%elem_of_red_flag_messages. rewrite H in Hm.
      by apply elem_of_nil in Hm.
    - intros H. destruct (red_flag_messages selected) as [|m l] eqn:E; [done|].
      destruct (H m). apply elem_of_red_flag_messages. rewrite E. by left. }
  split.
  - intros H x Hx Hsel%(elem_of_list_to_set (C:=gset string)).
    assert (∃ key m, (key, m) ∈ RED_FLAGS ∧ trigger (list_to_set selected) key)
      as (key & m & Hk & Ht).
    { unfold trigger. apply elem_of_app in Hx as [Hx|Hx].
      - apply list_elem_of_fmap in Hx as ([key m] & -> & Hk).
        exists key, m. split; [done|by left].
      - unfold MAPPED_LABELS in Hx. rewrite !elem_of_cons, elem_of_nil in Hx.
        destruct Hx as [->|[->|[->|[->|[->|[]]]]]].
        + exists "persistent vomiting", "Risk of dehydration; seek care if severe.".
          split; [compute_done|auto].
        + exists "severe abdominal pain", "Could indicate appendicitis or another emergency.".
          split; [compute_done|auto].
        + exists "sudden weakness or slurred speech",
            "Possible stroke — seek emergency care immediately.".
          split; [compute_done|auto 10].
        + exists "sudden weakness or slurred speech",
            "Possible stroke — seek emergency care immediately.".
          split; [compute_done|auto 10].
        + exists "sudden weakness or slurred speech",
            "Possible stroke — seek emergency care immediately.".
          split; [compute_done|auto 10]. }
    apply (H m), elem_of_fired. left. eauto.
  - intros H m [(key & Hk & Ht)|[_ [Hc _]]]%elem_of_fired.
    + assert (key ∈ RED_FLAGS.*1) as Hkey
        by (apply list_elem_of_fmap; exists (key, m); done).
      assert (∀ x, x ∈ MAPPED_LABELS → x ∉ (list_to_set selected : gset string)) as Hm.
      { intros x Hx. rewrite elem_of_list_to_set. apply H, elem_of_app. by right. }
      assert (key ∉ (list_to_set selected : gset string)) as Hn.
      { rewrite elem_of_list_to_set. apply H, elem_of_app. by left. }
      unfold trigger in Ht.
      destruct Ht as [Ht|[[_ Ht]|[[_ Ht]|[_ [Ht|[Ht|Ht]]]]]]; [done|..];
        revert Ht; apply Hm; compute_done.
    + apply elem_of_list_to_set in Hc. revert Hc. apply H. compute_done.
Qed.

(** ** Order of the red-flag messages *)

Lemma flag_entry_shift (sel : gset string) (msgs : list string) (e : string * string) :
  flag_entry sel msgs e = msgs ++ flag_entry sel [] e.
Proof.
  destruct e as [key msg]. unfold flag_entry.
  split_tests; rewrite <- ?app_assoc, ?app_nil_r; done.
Qed.

Lemma flag_entry_block (sel : gset string) (key msg : string) :
  ∃ n : nat, flag_entry sel [] (key, msg) = replicate n msg.
Proof.
  unfold flag_entry. split_tests;
    first [ by exists 0%nat | by exists 1%nat | by exists 2%nat
          | by exists 3%nat | by exists 4%nat ].
Qed.

Lemma flag_loop_shift (sel : gset string) (table : list (string * string))
    (msgs : list string) :
  fold_left (flag_entry sel) table msgs = msgs ++ fold_left (flag_entry sel) table [].
Proof.
  revert msgs. induction table as [|e table IH]; intros msgs; cbn [fold_left].
  - by rewrite app_nil_r.
  - rewrite IH, (IH (flag_entry sel [] e)), (flag_entry_shift sel msgs e).
    by rewrite app_assoc.
Qed.

Lemma first_occurrences_seen_block (seen : list string) (n : nat) (m : string)
    (l : list string) :
  m ∈ seen →
  first_occurrences seen (replicate n m ++ l) = first_occurrences seen l.
Proof.
  intros Hm. induction n as [|n IH]; simpl; [done|].
  by rewrite bool_decide_eq_true_2.
Qed.

Lemma first_occurrences_block (seen : list string) (n : nat) (m : string)
    (l : list string) :
  first_occurrences seen (replicate n m ++ l) = first_occurrences seen l
  ∨ first_occurrences seen (replicate n m ++ l) = m :: first_occurrences (m :: seen) l.
Proof.
  destruct n as [|n]; simpl; [by left|].
  case_bool_decide as Hm.
  - left. by apply first_occurrences_seen_block.
  - right. f_equal. apply first_occurrences_seen_block. by left.
Qed.

Lemma flag_loop_sublist (sel : gset string) (table : list (string * string))
    (tail tail' : list string) :
  (∀ seen, first_occurrences seen tail `sublist_of` tail') →
  ∀ seen, first_occurrences seen (fold_left (flag_entry sel) table [] ++ tail)
          `sublist_of` table.*2 ++ tail'.
Proof.
  intros Htail. induction table as [|[key msg] table IH]; intros seen;
    cbn [fold_left]; [apply Htail|].
  rewrite flag_loop_shift. destruct (flag_entry_block sel key msg) as [n ->].
  rewrite <- app_assoc, fmap_cons. cbn [snd app].
  destruct (first_occurrences_block seen n msg
              (fold_left (flag_entry sel) table [] ++ tail)) as [-> | ->].
  - apply sublist_cons, IH.
  - apply sublist_skip, IH.
Qed.

(** X8: the messages always come in the order of the [RED_FLAGS] table,
    with the combination message last, whatever the order of the
    selection; there are at most nine of them. *)
Theorem red_flags_in_table_order (selected : list string) :
  red_flag_messages selected `sublist_of` RED_FLAGS.*2 ++ [COMBINATION_MSG]
  ∧ (length (red_flag_messages selected) ≤ 9)%nat.
Proof.
  assert (red_flag_messages selected `sublist_of` RED_FLAGS.*2 ++ [COMBINATION_MSG]) as H.
  { unfold red_flag_messages. rewrite fromkeys_first_occurrences. unfold fired.
    destruct (_ && _).
    - apply flag_loop_sublist. intros seen. apply first_occurrences_sublist.
    - rewrite <- (app_nil_r (fold_left _ _ _)).
      apply flag_loop_sublist. intros seen. apply sublist_nil_l. }
  split; [exact H|]. apply sublist_length in H. exact H.
Qed.

(** * The phone and message helpers *)

(** ** [strip] *)

Section strip.
Context (isspace : pychar → bool).

Lemma lstrip_head (s : pystr) :
  match lstrip isspace s with [] => True | c :: _ => isspace c = false end.
Proof.
  induction s as [|c s IH]; simpl; [done|].
  destruct (isspace c) eqn:E; [exact IH|exact E].
Qed.

Lemma lstrip_fixed (s : pystr) :
  match s with [] => True | c :: _ => isspace c = false end →
  lstrip isspace s = s.
Proof. destruct s as [|c s]; simpl; [done|]. by intros ->. Qed.

Lemma lstrip_idemp (s : pystr) :
  lstrip isspace (lstrip isspace s) = lstrip isspace s.
Proof. apply lstrip_fixed, lstrip_head. Qed.

Lemma lstrip_nil (s : pystr) :
  lstrip isspace s = [] ↔ Forall (λ c, isspace c = true) s.
Proof.
  induction s as [|c s IH]; simpl; [by split|].
  destruct (isspace c) eqn:E.
  - rewrite IH. split; [by constructor|]. by inversion 1.
  - split; [done|]. inversion 1; congruence.
Qed.

Lemma lstrip_snoc (s : pystr) (c : pychar) :
  isspace c = false → lstrip isspace (s ++ [c]) = lstrip isspace s ++ [c].
Proof.
  intros Hc. induction s as [|d s IH]; simpl; [by rewrite Hc|].
  by destruct (isspace d).
Qed.

Lemma rstrip_idemp (s : pystr) :
  rstrip isspace (rstrip isspace s) = rstrip isspace s.
Proof. unfold rstrip. by rewrite reverse_involutive, lstrip_idemp. Qed.

Lemma rstrip_nil (s : pystr) :
  rstrip isspace s = [] ↔ Forall (λ c, isspace c = true) s.
Proof.
  unfold rstrip. etrans; [|apply Forall_reverse]. etrans; [|apply lstrip_nil].
  split; [|by intros ->].
  intros H. apply (f_equal reverse) in H. by rewrite reverse_involutive in H.
Qed.

Lemma rstrip_keeps_head (s : pystr) :
  lstrip isspace s = s → lstrip isspace (rstrip isspace s) = rstrip isspace s.
Proof.
  destruct s as [|c s]; [done|]. simpl.
  destruct (isspace c) eqn:E.
  { intros H. pose proof (lstrip_head s) as Hh. rewrite H in Hh. congruence. }
  intros _. unfold rstrip. rewrite reverse_cons, lstrip_snoc, reverse_snoc by done.
  simpl. by rewrite E.
Qed.

Lemma strip_fixed (s : pystr) :
  lstrip isspace s = s → rstrip isspace s = s → strip isspace s = s.
Proof. unfold strip. by intros -> ->. Qed.

Lemma strip_lstrip (s : pystr) :
  lstrip isspace (strip isspace s) = strip isspace s.
Proof. unfold strip. apply rstrip_keeps_head, lstrip_idemp. Qed.

Lemma strip_rstrip (s : pystr) :
  rstrip isspace (strip isspace s) = strip isspace s.
Proof. unfold strip. apply rstrip_idemp. Qed.

Lemma strip_idemp (s : pystr) :
  strip isspace (strip isspace s) = strip isspace s.
Proof. apply strip_fixed; [apply strip_lstrip|apply strip_rstrip]. Qed.

Lemma strip_nil (s : pystr) :
  strip isspace s = [] ↔ Forall (λ c, isspace c = true) s.
Proof.
  unfold strip. etrans; [apply rstrip_nil|]. etrans; [|apply lstrip_nil].
  split; [|by intros ->].
  intros H. pose proof (lstrip_head s) as Hh.
  destruct (lstrip isspace s) as [|c l]; [done|].
  inversion H; congruence.
Qed.

Lemma strip_no_space (s : pystr) :
  Forall (λ c, isspace c = false) s → strip isspace s = s.
Proof.
  intros H. apply strip_fixed.
  - apply lstrip_fixed. by destruct H.
  - unfold rstrip. rewrite lstrip_fixed; [apply reverse_involutive|].
    apply Forall_reverse in H. by destruct H.
Qed.

(** [strip] only removes characters. *)
Lemma lstrip_Forall (P : pychar → Prop) (s : pystr) :
  Forall P s → Forall P (lstrip isspace s).
Proof.
  induction 1 as [|c s Hc Hs IH]; simpl; [done|].
  destruct (isspace c); [done|by constructor].
Qed.

Lemma strip_Forall (P : pychar → Prop) (s : pystr) :
  Forall P s → Forall P (strip isspace s).
Proof.
  intros H. unfold strip, rstrip.
  apply Forall_reverse, lstrip_Forall, Forall_reverse, lstrip_Forall, H.
Qed.

End strip.

(** ** Telephone numbers *)

Lemma filter_all {A : Type} (P : A → Prop) `{∀ x, Decision (P x)} (l : list A) :
  Forall P l → filter P l = l.
Proof.
  induction 1 as [|x l Hx Hl IH]; [done|].
  by rewrite filter_cons_True, IH.
Qed.

Lemma filter_Forall {A : Type} (P : A → Prop) `{∀ x, Decision (P x)} (l : list A) :
  Forall P (filter P l).
Proof. apply Forall_forall. intros x Hx. by apply list_elem_of_filter in Hx as [? _]. Qed.

Lemma str_or_nil (x y : pystr) : str_or x y = [] ↔ x = [] ∧ y = [].
Proof.
  unfold str_or. case_bool_decide as Hx.
  - split; [by intros ->|by intros [_ ->]].
  - split; [done|by intros [? _]].
Qed.

Lemma ascii_space_ALLOWED (c : pychar) : c ∈ ALLOWED → ascii_space c = false.
Proof. revert c. apply Forall_forall. compute_done. Qed.

(** X9: normalising a telephone number twice gives what normalising it
    once gives ('+' and the ASCII digits are not whitespace). *)
Theorem normalize_phone_for_tel_idempotent (isspace : pychar → bool)
    (num : option pystr) :
  (∀ c, c ∈ ALLOWED → isspace c = false) →
  normalize_phone_for_tel isspace (Some (normalize_phone_for_tel isspace num))
  = normalize_phone_for_tel isspace num.
Proof.
  intros Hallowed. unfold normalize_phone_for_tel. cbv zeta.
  change (or_empty (Some ?x)) with x.
  generalize (strip_idemp isspace (or_empty num)).
  generalize (strip isspace (or_empty num)). intros s Hs.
  assert (∀ x y : pystr, x = [] → str_or x y = y) as Hnil
    by (intros x y ->; done).
  assert (∀ x y : pystr, x ≠ [] → str_or x y = x) as Hcons
    by (intros x y Hx; unfold str_or; by rewrite bool_decide_eq_false_2).
  destruct (decide (filter (λ ch, ch ∈ ALLOWED) s = [])) as [Hc|Hc].
  - rewrite (Hnil _ s Hc), Hs. by rewrite Hnil.
  - rewrite (Hcons _ s Hc). rewrite strip_no_space.
    + rewrite filter_all by apply filter_Forall. by apply Hcons.
    + eapply Forall_impl; [apply filter_Forall|]. exact Hallowed.
Qed.

Lemma normalize_phone_for_tel_idempotent_witness :
  normalize_phone_for_tel ascii_space
    (Some (normalize_phone_for_tel ascii_space (Some (lit " +234 (801) 234-5678 "))))
  = normalize_phone_for_tel ascii_space (Some (lit " +234 (801) 234-5678 ")).
Proof.
  apply normalize_phone_for_tel_idempotent. exact ascii_space_ALLOWED.
Defined.

Lemma normalize_phone_for_tel_nil (isspace : pychar → bool) (num : option pystr) :
  normalize_phone_for_tel isspace num = []
  ↔ Forall (λ c, isspace c = true) (or_empty num).
Proof.
  unfold normalize_phone_for_tel. rewrite str_or_nil, strip_nil. split.
  - by intros [_ H].
  - intros H. split; [|done].
    apply (strip_nil isspace) in H. by rewrite H.
Qed.

Lemma normalize_phone_for_tel_fallback (isspace : pychar → bool) (num : option pystr) :
  Forall (λ c, c ∉ ALLOWED) (or_empty num) →
  normalize_phone_for_tel isspace num = strip isspace (or_empty num).
Proof.
  intros Hno. unfold normalize_phone_for_tel. rewrite filter_absent; [done|].
  intros c Hc. eapply Forall_forall in Hno; [exact Hno|].
  revert c Hc. apply Forall_forall, strip_Forall, Forall_forall. auto.
Qed.

(** X10: the normalised telephone number is empty exactly when the number
    given is [None], empty or all whitespace; a number with no dialable
    character falls back to the stripped input, and a number that has one
    becomes the dialable characters of the stripped input, in order. *)
Theorem normalize_phone_for_tel_empty_iff (isspace : pychar → bool)
    (num : option pystr) :
  (normalize_phone_for_tel isspace num = []
   ↔ Forall (λ c, isspace c = true) (or_empty num))
  ∧ (Forall (λ c, c ∉ ALLOWED) (or_empty num) →
     normalize_phone_for_tel isspace num = strip isspace (or_empty num))
  ∧ (Exists (λ c, c ∈ ALLOWED) (strip isspace (or_empty num)) →
     normalize_phone_for_tel isspace num
     = filter (λ c, c ∈ ALLOWED) (strip isspace (or_empty num))).
Proof.
  split; [apply normalize_phone_for_tel_nil|].
  split; [apply normalize_phone_for_tel_fallback|].
  unfold normalize_phone_for_tel.
  - intros (c & Hc & Ha)%Exists_exists. unfold str_or.
    rewrite bool_decide_eq_false_2; [done|].
    intros Hnil. assert (c ∈ filter (λ c, c ∈ ALLOWED)
                           (strip isspace (or_empty num))) as Hin
      by by apply list_elem_of_filter.
    rewrite Hnil in Hin. by apply elem_of_nil in Hin.
Qed.

Lemma normalize_phone_for_tel_empty_iff_witness :
  normalize_phone_for_tel ascii_space (Some (lit "  front desk "))
  = strip ascii_space (lit "  front desk ")
  ∧ normalize_phone_for_tel ascii_space (Some (lit " +234 (801) 234-5678 "))
    = filter (λ c, c ∈ ALLOWED) (strip ascii_space (lit " +234 (801) 234-5678 ")).
Proof.
  destruct (normalize_phone_for_tel_empty_iff ascii_space (Some (lit "  front desk ")))
    as (_ & H1 & _).
  destruct (normalize_phone_for_tel_empty_iff ascii_space
              (Some (lit " +234 (801) 234-5678 "))) as (_ & _ & H2).
  split; [apply H1|apply H2]; compute_done.
Defined.

(** ** [urllib.parse.quote] *)

Lemma utf8_char_bytes (c : N) (bs : list N) :
  utf8_char c = Some bs → Forall (λ b, (b < 256)%N) bs.
Proof.
  unfold utf8_char. repeat case_bool_decide; intros [= <-];
    rewrite ?Forall_cons; repeat split; try apply Forall_nil;
    first [ match goal with
            | |- context [(?x `mod` 64)%N] =>
                pose proof (N.mod_lt x 64 ltac:(done)); lia
            end
          | zify; Z.div_mod_to_equations; lia ].
Qed.

Lemma utf8_bytes (s : list N) (bs : list N) :
  utf8 s = Some bs → Forall (λ b, (b < 256)%N) bs.
Proof.
  revert bs. induction s as [|c s IH]; simpl; intros bs.
  - by intros [= <-].
  - destruct (utf8_char c) as [b|] eqn:Hc; [|done]. simpl.
    destruct (utf8 s) as [bs'|]; [|done]. simpl. intros [= <-].
    apply Forall_app. split; [by eapply utf8_char_bytes|by apply IH].
Qed.

Lemma below_elem_of (n : nat) (b : N) :
  (b < N.of_nat n)%N → b ∈ (N.of_nat <$> seq 0 n).
Proof.
  intros Hb. apply list_elem_of_fmap. exists (N.to_nat b).
  split; [lia|]. apply elem_of_seq. lia.
Qed.

Lemma quote_byte_chars (b : N) :
  (b < 256)%N → Forall (λ c, c ∈ QUOTED) (quote_byte b).
Proof.
  intros Hb%(below_elem_of 256). revert b Hb. apply Forall_forall. compute_done.
Qed.

Lemma quote_chars (s q : list N) :
  quote s = Some q → Forall (λ c, c ∈ QUOTED) q.
Proof.
  unfold quote. destruct (utf8 s) as [bs|] eqn:Hbs; [|done]. simpl. intros [= <-].
  apply utf8_bytes in Hbs. induction Hbs as [|b bs Hb Hbs IH]; simpl; [done|].
  apply Forall_app. split; [by apply quote_byte_chars|exact IH].
Qed.

Lemma utf8_char_None (c : N) : utf8_char c = None ↔ unencodable c.
Proof.
  unfold utf8_char, unencodable. repeat case_bool_decide; split; try done; lia.
Qed.

Lemma utf8_None (s : list N) : utf8 s = None ↔ Exists unencodable s.
Proof.
  induction s as [|c s IH]; simpl.
  - split; [done|]. by inversion 1.
  - rewrite Exists_cons, <- IH, <- utf8_char_None.
    destruct (utf8_char c) as [b|]; simpl.
    + destruct (utf8 s) as [bs|]; simpl.
      * split; [done|]. by intros [?|?].
      * split; [by right|done].
    + split; [by left|done].
Qed.

(** X11: [quote] fails exactly on a string with a surrogate (the encoding
    to UTF-8 raises); otherwise its result is made only of ASCII letters
    and digits, of [_.-~/] and of [%]: nothing of the text is left that would
    break a link (a space, a newline, [&], [?], [#], [=]). *)
Theorem quote_result (s : list N) :
  (quote s = None ↔ Exists unencodable s)
  ∧ (∀ q, quote s = Some q →
       Forall (λ c, c ∈ ALWAYS_SAFE ++ lit "/%") q
       ∧ Forall (λ c, (c ∉ lit " &?#=") ∧ c ≠ 10%N) q).
Proof.
  split.
  - rewrite <- utf8_None. unfold quote. by destruct (utf8 s).
  - intros q Hq%quote_chars. split; [exact Hq|].
    eapply Forall_impl; [exact Hq|]. intros c Hc. revert c Hc.
    apply Forall_forall. compute_done.
Qed.

Lemma quote_safe_unchanged (s : list N) :
  Forall (λ c, c ∈ ALWAYS_SAFE ++ lit "/") s → quote s = Some s.
Proof.
  intros H. unfold quote.
  assert (utf8 s = Some s) as ->.
  { induction H as [|c s Hc Hs IH]; simpl; [done|]. rewrite IH.
    assert (utf8_char c = Some [c]) as ->; [|done].
    revert c Hc. apply Forall_forall. compute_done. }
  simpl. f_equal. induction H as [|c s Hc Hs IH]; simpl; [done|]. rewrite IH.
  assert (quote_byte c = [c]) as ->; [|done].
  revert c Hc. apply Forall_forall. compute_done.
Qed.

(** ** The links *)

Lemma strip_keeps (isspace : pychar → bool) (s : pystr) (c : pychar) :
  isspace c = false → c ∈ s → c ∈ strip isspace s.
Proof.
  intros Hc.
  assert (∀ l : list N, c ∈ l → c ∈ lstrip isspace l) as Hl.
  { induction l as [|d l IH]; simpl; [done|].
    destruct (isspace d) eqn:E; [|done].
    intros [->|H]%elem_of_cons; [congruence|by apply IH]. }
  intros H. unfold strip, rstrip.
  apply elem_of_reverse, Hl, elem_of_reverse, Hl, H.
Qed.

(** X13: [sms_link] returns the empty string exactly when the telephone
    number is [None], empty or all whitespace (the message being one
    [quote] accepts); a number that has no dialable character at all still
    gets a link, with the stripped number as it was typed. *)
Theorem sms_link_empty_iff (isspace : pychar → bool) (phone message : option pystr)
    (body : pystr) :
  quote (or_empty message) = Some body →
  (sms_link isspace phone message = Some []
   ↔ Forall (λ c, isspace c = true) (or_empty phone))
  ∧ (Forall (λ c, c ∉ ALLOWED) (or_empty phone) →
     ¬ Forall (λ c, isspace c = true) (or_empty phone) →
     sms_link isspace phone message
     = Some (lit "sms:" ++ strip isspace (or_empty phone) ++ lit "?&body=" ++ body)).
Proof.
  intros Hq. unfold sms_link. rewrite Hq. simpl.
  pose proof (normalize_phone_for_tel_nil isspace phone) as He.
  split.
  - case_bool_decide as Ht.
    + split; [intros _; by apply He|done].
    + split; [done|]. intros H%He. done.
  - intros Hno Hblank.
    rewrite bool_decide_eq_false_2 by (by rewrite He).
    by rewrite normalize_phone_for_tel_fallback.
Qed.

Lemma sms_link_empty_iff_witness :
  sms_link ascii_space (Some (lit " front desk ")) (Some (lit "help me"))
  = Some (lit "sms:" ++ strip ascii_space (lit " front desk ")
          ++ lit "?&body=" ++ lit "help%20me").
Proof.
  apply (sms_link_empty_iff ascii_space (Some (lit " front desk "))
           (Some (lit "help me")) (lit "help%20me")); compute_done.
Defined.

Local Arguments lit : simpl never.
Local Arguments app : simpl never.

Lemma Forall_elem_of_weaken (A B l : list N) :
  Forall (λ c, c ∈ B) A → Forall (λ c, c ∈ A) l → Forall (λ c, c ∈ B) l.
Proof.
  intros HAB Hl. eapply Forall_impl; [exact Hl|].
  intros c Hc. eapply Forall_forall in HAB; [exact HAB|exact Hc].
Qed.

(** X14: when [whatsapp_link] returns, the result is empty exactly when the
    number has no digit; otherwise every character of the link is a digit
    of the number, an unreserved ASCII character or one of [/%:?=], whatever
    the message contains. *)
Theorem whatsapp_link_result (isdigit : pychar → bool) (phone message : option pystr)
    (l : pystr) :
  whatsapp_link isdigit phone message = Some l →
  (l = [] ↔ Forall (λ c, isdigit c = false) (or_empty phone))
  ∧ Forall (λ c, isdigit c = true ∨ c ∈ ALWAYS_SAFE ++ lit "/%:?=") l.
Proof.
  unfold whatsapp_link, normalize_phone_for_whatsapp.
  destruct (quote (or_empty message)) as [text|] eqn:Hq; [|done]. simpl.
  intros [= <-].
  assert (filter (λ ch, isdigit ch = true) (or_empty phone) = []
          ↔ Forall (λ c, isdigit c = false) (or_empty phone)) as Hnil.
  { induction (or_empty phone) as [|c s IH]; [by split|].
    rewrite filter_cons. destruct (isdigit c) eqn:E.
    - rewrite decide_True by done. split; [done|]. inversion 1; congruence.
    - rewrite decide_False by congruence. rewrite IH.
      split; [by constructor|by inversion 1]. }
  case_bool_decide as Hn.
  - split; [by rewrite <- Hnil|done].
  - split; [by rewrite <- Hnil|].
    rewrite !Forall_app. repeat split.
    + apply Forall_forall. intros c Hc. right. revert c Hc.
      apply Forall_forall. compute_done.
    + eapply Forall_impl; [apply filter_Forall|]. simpl. auto.
    + apply Forall_forall. intros c Hc. right. revert c Hc.
      apply Forall_forall. compute_done.
    + apply quote_chars in Hq. eapply Forall_impl; [exact Hq|].
      intros c Hc. right. revert c Hc. apply Forall_forall. compute_done.
Qed.

Lemma whatsapp_link_result_witness :
  Forall (λ c, ascii_digit c = true ∨ c ∈ ALWAYS_SAFE ++ lit "/%:?=")
    (lit "https://wa.me/2348012345678?text=I%20need%20help%21").
Proof.
  apply (whatsapp_link_result ascii_digit (Some (lit "+234 801 234 5678"))
           (Some (lit "I need help!"))).
  vm_compute. reflexivity.
Defined.

Lemma google_maps_link_nil (isspace : pychar → bool) (lat lon : option pystr)
    (l : pystr) :
  google_maps_link isspace lat lon = Some l →
  l = [] ↔ Forall (λ c, isspace c = true) (or_empty lat)
           ∨ Forall (λ c, isspace c = true) (or_empty lon).
Proof.
  unfold google_maps_link. rewrite <- !(strip_nil isspace).
  repeat case_bool_decide; simpl.
  - intros [= <-]. split; auto.
  - intros [= <-]. split; auto.
  - intros [= <-]. split; auto.
  - destruct (quote (strip isspace (or_empty lat))) as [qlat|]; [|done].
    destruct (quote (strip isspace (or_empty lon))) as [qlon|]; [|done].
    simpl. intros [= <-]. split; [done|by intros [?|?]].
Qed.

(** X15: when [google_maps_link] returns, the result is empty exactly when
    the latitude or the longitude is [None], empty or all whitespace;
    otherwise the link is made only of unreserved ASCII characters and
    [/%:?=,]. *)
Theorem google_maps_link_result (isspace : pychar → bool) (lat lon : option pystr)
    (l : pystr) :
  google_maps_link isspace lat lon = Some l →
  (l = [] ↔ Forall (λ c, isspace c = true) (or_empty lat)
            ∨ Forall (λ c, isspace c = true) (or_empty lon))
  ∧ Forall (λ c, c ∈ ALWAYS_SAFE ++ lit "/%:?=,") l.
Proof.
  unfold google_maps_link. rewrite <- !(strip_nil isspace).
  repeat case_bool_decide; simpl.
  - intros [= <-]. split; [split; auto|done].
  - intros [= <-]. split; [split; auto|done].
  - intros [= <-]. split; [split; auto|done].
  - destruct (quote (strip isspace (or_empty lat))) as [qlat|] eqn:Hlat; [|done].
    destruct (quote (strip isspace (or_empty lon))) as [qlon|] eqn:Hlon; [|done].
    simpl. intros [= <-]. split; [split; [done|by intros [?|?]]|].
    apply quote_chars in Hlat, Hlon.
    rewrite !Forall_app. repeat split.
    + compute_done.
    + revert Hlat. apply Forall_elem_of_weaken. compute_done.
    + compute_done.
    + revert Hlon. apply Forall_elem_of_weaken. compute_done.
Qed.

Lemma google_maps_link_result_witness :
  Forall (λ c, c ∈ ALWAYS_SAFE ++ lit "/%:?=,")
    (lit "https://maps.google.com/?q=6.465422,3.406448").
Proof.
  apply (google_maps_link_result ascii_space (Some (lit " 6.465422 "))
           (Some (lit "3.406448"))).
  vm_compute. reflexivity.
Defined.

(** X12: when the latitude and the longitude, once stripped, are not empty
    and are made only of ASCII letters, digits and [_.-~/], [google_maps_link]
    returns ["https://maps.google.com/?q="], the stripped latitude, a comma
    and the stripped longitude: nothing is escaped, so coordinates written
    with digits, a minus sign and a decimal point enter the link as typed. *)
Theorem google_maps_link_verbatim (isspace : pychar → bool) (lat lon : option pystr) :
  strip isspace (or_empty lat) ≠ [] →
  strip isspace (or_empty lon) ≠ [] →
  Forall (λ c, c ∈ ALWAYS_SAFE ++ lit "/") (strip isspace (or_empty lat)) →
  Forall (λ c, c ∈ ALWAYS_SAFE ++ lit "/") (strip isspace (or_empty lon)) →
  google_maps_link isspace lat lon
  = Some (lit "https://maps.google.com/?q=" ++ strip isspace (or_empty lat)
          ++ lit "," ++ strip isspace (or_empty lon)).
Proof.
  intros Hlat Hlon Hslat Hslon. unfold google_maps_link.
  rewrite !bool_decide_eq_false_2 by done. cbn [orb].
  by rewrite (quote_safe_unchanged _ Hslat), (quote_safe_unchanged _ Hslon).
Qed.

Lemma google_maps_link_verbatim_witness :
  google_maps_link ascii_space (Some (lit " -6.465422 ")) (Some (lit "3.406448"))
  = Some (lit "https://maps.google.com/?q=" ++ strip ascii_space (lit " -6.465422 ")
          ++ lit "," ++ strip ascii_space (lit "3.406448")).
Proof. apply google_maps_link_verbatim; compute_done. Defined.

(** X16: whenever [build_message] returns, the message is not empty and
    begins with the stripped user text, or with "Emergency! Please help."
    when that text is [None], empty or all whitespace; it is exactly that
    first part when the latitude or the longitude is [None], empty or all
    whitespace, and only then. *)
Theorem build_message_result (isspace : pychar → bool)
    (user_msg lat lon : option pystr) (m : pystr) :
  build_message isspace user_msg lat lon = Some m →
  m ≠ []
  ∧ str_or (strip isspace (or_empty user_msg)) (lit "Emergency! Please help.")
    `prefix_of` m
  ∧ (m = str_or (strip isspace (or_empty user_msg)) (lit "Emergency! Please help.")
     ↔ Forall (λ c, isspace c = true) (or_empty lat)
       ∨ Forall (λ c, isspace c = true) (or_empty lon)).
Proof.
  unfold build_message. fold DEFAULT_MESSAGE.
  set (base := str_or (strip isspace (or_empty user_msg)) DEFAULT_MESSAGE).
  assert (base ≠ []) as Hbase.
  { unfold base. rewrite str_or_nil. by intros [_ ?]. }
  destruct (google_maps_link isspace lat lon) as [maps|] eqn:Hmaps; [|done].
  apply google_maps_link_nil in Hmaps. cbn [mbind option_bind].
  intros [= <-]. case_bool_decide as Hm.
  - split; [done|]. split; [done|]. split; [intros _; by apply Hmaps|done].
  - split; [by destruct base|]. split; [by apply prefix_app_r|]. split.
    + intros Heq. apply (f_equal length) in Heq.
      rewrite !length_app in Heq. simpl in Heq. lia.
    + intros H%Hmaps. done.
Qed.

Lemma build_message_result_witness :
  lit "help me" `prefix_of` lit "help me" ++ [10%N]
    ++ lit "My location: https://maps.google.com/?q=6.465422,3.406448".
Proof.
  apply (build_message_result ascii_space (Some (lit "  help me "))
           (Some (lit " 6.465422 ")) (Some (lit "3.406448"))).
  vm_compute. reflexivity.
Defined.

(** * Reminder times *)

(** X17: whatever the text stored as the time of a reminder, and whatever
    characters count as decimal digits, [_parse_time_str] returns an hour
    from 0 to 23 and a minute from 0 to 59. *)
Theorem parse_time_in_range (decimal : pychar → option N) (t : option pystr) :
  0 ≤ (_parse_time_str decimal t).1 ≤ 23
  ∧ 0 ≤ (_parse_time_str decimal t).2 ≤ 59.
Proof.
  unfold _parse_time_str.
  destruct (match_time decimal (or_empty t)) as [[h m]|]; simpl; lia.
Qed.

Lemma match_minutes_Some (decimal : pychar → option N) (rest m : pystr) :
  match_minutes decimal rest = Some m →
  ∃ d e tl, rest = 58%N :: d :: e :: tl ∧ m = [d; e] ∧ (tl = [] ∨ tl = [10%N]).
Proof.
  unfold match_minutes. destruct rest as [|c [|d [|e tl]]]; try done.
  destruct (bool_decide_reflect (c = 58%N)) as [->|]; [|done]. simpl.
  destruct (is_decimal decimal d); [|done].
  destruct (is_decimal decimal e); [|done]. simpl.
  destruct (at_dollar tl) eqn:Htl; [|done]. intros [= <-].
  exists d, e, tl. split; [done|]. split; [done|].
  destruct tl as [|x [|y tl]]; [by left| |done].
  right. simpl in Htl. by apply bool_decide_eq_true in Htl as ->.
Qed.

Lemma match_time_Some (decimal : pychar → option N) (t h m : pystr) :
  match_time decimal t = Some (h, m) →
  ∃ tl, t = h ++ 58%N :: m ++ tl ∧ (length h = 1 ∨ length h = 2)%nat
        ∧ length m = 2%nat ∧ (tl = [] ∨ tl = [10%N]).
Proof.
  unfold match_time. destruct t as [|a rest]; [done|].
  destruct (is_decimal decimal a); [|done].
  assert (∀ hs rest', (m' ← match_minutes decimal rest'; Some (hs, m')) = Some (h, m) →
            ∃ tl, hs ++ rest' = h ++ 58%N :: m ++ tl ∧ hs = h
                  ∧ length m = 2%nat ∧ (tl = [] ∨ tl = [10%N])) as Hmin.
  { intros hs rest'. destruct (match_minutes decimal rest') as [m'|] eqn:Hm; [|done].
    simpl. intros [= <- <-].
    apply match_minutes_Some in Hm as (d & e & tl & -> & -> & Htl).
    exists tl. done. }
  destruct rest as [|b rest'].
  - intros (tl & Ht & <- & Hm & Htl)%(Hmin [a]). exists tl. auto.
  - destruct (is_decimal decimal b).
    + destruct (m' ← match_minutes decimal rest'; Some ([a; b], m')) as [r|] eqn:Htwo.
      * intros [= ->]. apply (Hmin [a; b]) in Htwo as (tl & Ht & <- & Hm & Htl).
        exists tl. auto.
      * intros (tl & Ht & <- & Hm & Htl)%(Hmin [a]). exists tl. auto.
    + intros (tl & Ht & <- & Hm & Htl)%(Hmin [a]). exists tl. auto.
Qed.

(** X18: a text that has no colon, fewer than four characters or more than
    six, and also [None] and the empty text, is read as 08:00. *)
Theorem parse_time_fallback (decimal : pychar → option N) (t : option pystr) :
  58%N ∉ or_empty t ∨ (length (or_empty t) < 4)%nat ∨ (6 < length (or_empty t))%nat →
  _parse_time_str decimal t = (8, 0).
Proof.
  intros H. unfold _parse_time_str.
  destruct (match_time decimal (or_empty t)) as [[h m]|] eqn:Hm; [|done].
  apply match_time_Some in Hm as (tl & Ht & Hh & Hmm & Htl). exfalso.
  rewrite Ht in H. destruct H as [H|H].
  - apply H. rewrite elem_of_app. right. by left.
  - rewrite length_app in H. cbn [length] in H. rewrite length_app in H.
    destruct Htl as [-> | ->]; simpl in H; lia.
Qed.

Lemma parse_time_fallback_witness :
  _parse_time_str ascii_decimal None = (8, 0)
  ∧ _parse_time_str ascii_decimal (Some (lit "half past nine")) = (8, 0).
Proof.
  split; apply parse_time_fallback.
  - left. compute_done.
  - left. compute_done.
Defined.

Section ascii_digits.
Context (decimal : pychar → option N).
Hypothesis decimal_ascii : ∀ d : N, (d < 10)%N → decimal (48 + d)%N = Some d.

Lemma is_decimal_ascii (d : N) : (d < 10)%N → is_decimal decimal (48 + d)%N = true.
Proof.
  intros Hd. unfold is_decimal. rewrite decimal_ascii by done.
  by apply bool_decide_eq_true_2.
Qed.

Lemma int_of_two_digits (a b : N) :
  (a < 10)%N → (b < 10)%N →
  int_of_digits decimal [(48 + a)%N; (48 + b)%N] = 10 * Z.of_N a + Z.of_N b.
Proof.
  intros Ha Hb. unfold int_of_digits. cbn [fold_left].
  rewrite !decimal_ascii by done. simpl. lia.
Qed.

Lemma parse_two_digit_time (a b c d : N) :
  (a < 10)%N → (b < 10)%N → (c < 10)%N → (d < 10)%N →
  _parse_time_str decimal
    (Some [(48 + a)%N; (48 + b)%N; 58%N; (48 + c)%N; (48 + d)%N])
  = (Z.min 23 (10 * Z.of_N a + Z.of_N b), Z.min 59 (10 * Z.of_N c + Z.of_N d)).
Proof.
  intros Ha Hb Hc Hd. unfold _parse_time_str, match_time, match_minutes.
  change (or_empty (Some ?x)) with x. cbv beta iota.
  rewrite !is_decimal_ascii by done. cbn [andb at_dollar mbind option_bind].
  rewrite bool_decide_eq_true_2 by done. cbn [andb mbind option_bind].
  rewrite !int_of_two_digits by done. f_equal; lia.
Qed.

End ascii_digits.

(** X19: a time written with two ASCII digits, a colon and two ASCII digits
    is never refused for being out of range: the hour read is the written
    one or 23 if that is less, the minute the written one or 59 if that is
    less (the ASCII digits having their usual values). *)
Theorem parse_time_clamps (decimal : pychar → option N) (a b c d : N) :
  (∀ x : N, (x < 10)%N → decimal (48 + x)%N = Some x) →
  (a < 10)%N → (b < 10)%N → (c < 10)%N → (d < 10)%N →
  _parse_time_str decimal
    (Some [(48 + a)%N; (48 + b)%N; 58%N; (48 + c)%N; (48 + d)%N])
  = (Z.min 23 (10 * Z.of_N a + Z.of_N b), Z.min 59 (10 * Z.of_N c + Z.of_N d)).
Proof. intros Hdec. by apply parse_two_digit_time. Qed.

Lemma ascii_decimal_value (x : N) : (x < 10)%N → ascii_decimal (48 + x)%N = Some x.
Proof.
  intros Hx. unfold ascii_decimal. rewrite bool_decide_eq_true_2 by lia.
  f_equal. lia.
Qed.

Lemma parse_time_clamps_witness :
  _parse_time_str ascii_decimal (Some (lit "29:75")) = (23, 59).
Proof.
  apply (parse_time_clamps ascii_decimal 2 9 7 5 ascii_decimal_value); reflexivity.
Defined.

Lemma format_02d_two_digits (n : Z) :
  0 ≤ n < 100 →
  format_02d n = [(48 + Z.to_N (n `div` 10))%N; (48 + Z.to_N (n `mod` 10))%N].
Proof.
  intros Hn. assert (n ∈ seqZ 0 100) as Hin by (rewrite elem_of_seqZ; lia).
  clear Hn. revert n Hin. apply Forall_forall. compute_done.
Qed.

(** X20: the time string the Medication Reminder page saves for an hour
    from 0 to 23 and a minute from 0 to 59 is read back by
    [_parse_time_str] as that hour and that minute (the ASCII digits having
    their usual values). *)
Theorem parse_time_string_round_trip (decimal : pychar → option N) (hh mm : Z) :
  (∀ x : N, (x < 10)%N → decimal (48 + x)%N = Some x) →
  0 ≤ hh ≤ 23 → 0 ≤ mm ≤ 59 →
  _parse_time_str decimal (Some (time_string hh mm)) = (hh, mm).
Proof.
  intros Hdec Hh Hm. unfold time_string.
  rewrite !format_02d_two_digits by lia.
  change ([?x; ?y] ++ [?z] ++ [?u; ?v]) with [x; y; z; u; v].
  rewrite (parse_two_digit_time decimal Hdec) by
    (zify; Z.div_mod_to_equations; lia).
  f_equal; zify; Z.div_mod_to_equations; lia.
Qed.

Lemma parse_time_string_round_trip_witness :
  _parse_time_str ascii_decimal (Some (time_string 7 5)) = (7, 5).
Proof.
  apply (parse_time_string_round_trip ascii_decimal 7 5 ascii_decimal_value); lia.
Defined.

(** ** Due reminders *)

(** X21: during the whole minute a reminder is set for (the hour and the
    minute of [now] are those read from the reminder's time, or 08:00 when
    it has none), [is_due_now] is true for any tolerance of at least one
    minute. *)
Theorem due_during_the_minute (decimal : pychar → option N)
    (rem : gmap string (option pystr)) (now : datetime) (tolerance_minutes : Z) :
  hour now = (_parse_time_str decimal (default (Some (lit "08:00")) (rem !! "time"))).1 →
  minute now = (_parse_time_str decimal (default (Some (lit "08:00")) (rem !! "time"))).2 →
  0 ≤ second now < 60 → 0 ≤ microsecond now < 1000000 →
  1 ≤ tolerance_minutes →
  is_due_now decimal rem now tolerance_minutes = true.
Proof.
  unfold is_due_now.
  destruct (_parse_time_str decimal _) as [hh mm]. cbn [fst snd].
  intros Hh Hm Hs Hu Htol. apply bool_decide_eq_true_2.
  unfold day_micros. cbn [hour minute second microsecond]. lia.
Qed.

Lemma due_during_the_minute_witness :
  is_due_now ascii_decimal {[ "time" := Some (lit "21:30") ]}
    (Datetime 21 30 59 999999) 2 = true.
Proof. apply due_during_the_minute; vm_compute; (done || by split). Defined.

(** X22: [is_due_now] is true only when the time of day of [now], in whole
    minutes since midnight, differs from the reminder's by at most the
    tolerance: the comparison stays within the day of [now], so a reminder
    for 23:59 is not due at 00:00 with the tolerance 2. *)
Theorem due_only_near_the_time (decimal : pychar → option N)
    (rem : gmap string (option pystr)) (now : datetime) (tolerance_minutes : Z) :
  0 ≤ second now < 60 → 0 ≤ microsecond now < 1000000 →
  is_due_now decimal rem now tolerance_minutes = true →
  Z.abs ((hour now * 60 + minute now)
         - ((_parse_time_str decimal (default (Some (lit "08:00")) (rem !! "time"))).1 * 60
            + (_parse_time_str decimal (default (Some (lit "08:00")) (rem !! "time"))).2))
  ≤ tolerance_minutes
  ∧ is_due_now ascii_decimal {[ "time" := Some (lit "23:59") ]} (Datetime 0 0 0 0) 2
    = false.
Proof.
  unfold is_due_now at 1.
  destruct (_parse_time_str decimal _) as [hh mm]. cbn [fst snd].
  intros Hs Hu Hdue%bool_decide_eq_true. split; [|vm_compute; reflexivity].
  unfold day_micros in Hdue. cbn [hour minute second microsecond] in Hdue. lia.
Qed.

Lemma due_only_near_the_time_witness :
  Z.abs ((8 * 60 + 1)
         - ((_parse_time_str ascii_decimal (default (Some (lit "08:00"))
               ((∅ : gmap string (option (list N))) !! "time"))).1 * 60
            + (_parse_time_str ascii_decimal (default (Some (lit "08:00"))
                 ((∅ : gmap string (option (list N))) !! "time"))).2))
  ≤ 2.
Proof.
  apply (due_only_near_the_time ascii_decimal ∅ (Datetime 8 1 59 999999) 2);
    vm_compute; (done || by split).
Defined.
